(** * The trxdb loader: ingestion state machine, flush policy and lifecycle

    A shallow embedding of [trxdb_loader.BigtableLoader] (package
    [trxdb-loader] of sf-ethereum): the two processing jobs [FullJob] and
    [PatchJob], the flush controller [FlushIfNeeded] / [DoFlush], the
    progress ticker, the health flag and the shutdown wiring of [Launch].

    Conventions of the embedding.
    - [uint64] and [int] values are integers of [Z]; the only arithmetic
      the loader performs that can leave the range is [StepIndex+1], whose
      wrap-around is written out in [int_add].
    - [time.Time] is a number of nanoseconds since the Unix epoch and
      [time.Duration] a number of nanoseconds, saturated as [Time.Sub] does.
    - A Go [error] result is an [option error], [None] standing for [nil].
    - A method of the loader is a function from the state of the world
      before the call to an [Outcome]: the returned value and the world
      after, or a run-time panic and the world it leaves behind.
    - The Commit Target ([trxdb.DBWriter]) is an interface: a type class
      over its own state.  Every call made on it, and every call of a
      [Shutdown], is appended to the world's [trace]. *)

From Stdlib Require Import ZArith List String Ascii Bool Lia.
Import ListNotations.
Local Open Scope Z_scope.

(** ** Errors *)

(** Go error values as [fmt.Errorf] builds them: a plain message, or a
    message around a wrapped cause (the [%w] verb). *)
Inductive error : Type :=
| errorString (s : string)
| wrapError (msg : string) (err : error).

Definition Error (e : error) : string :=
  match e with
  | errorString s => s
  | wrapError msg _ => msg
  end.

Definition Unwrap (e : error) : option error :=
  match e with
  | errorString _ => None
  | wrapError _ err => Some err
  end.

(** [fmt.Errorf(prefix + "%w", err)] *)
Definition Errorf_w (prefix : string) (err : error) : error :=
  wrapError (prefix ++ Error err)%string err.

(** [fmt.Errorf(prefix + "%s", err)]: the text of [err], no wrapping. *)
Definition Errorf_s (prefix : string) (err : error) : error :=
  errorString (prefix ++ Error err)%string.

Definition dquote : string := String (ascii_of_nat 34) EmptyString.

(** [fmt.Errorf(prefix + "%q", s)] for a [s] that needs no escaping. *)
Definition Errorf_q (prefix : string) (s : string) : error :=
  errorString (prefix ++ dquote ++ s ++ dquote)%string.

(** ** Machine integers, time *)

Definition int_min : Z := - 2 ^ 63.
Definition int_max : Z := 2 ^ 63 - 1.

Definition int_ok (z : Z) : Prop := int_min <= z <= int_max.

(** Two's-complement addition on Go's 64-bit [int]. *)
Definition int_add (a b : Z) : Z :=
  (a + b + 2 ^ 63) mod 2 ^ 64 - 2 ^ 63.

(** [a % b] on [uint64]; [None] is the run-time panic
    "integer divide by zero". *)
Definition uint64_rem (a b : Z) : option Z :=
  if b =? 0 then None else Some (a mod b).

Definition Time : Type := Z.
Definition Duration : Type := Z.

Definition Second : Duration := 1000000000.

(** The zero [time.Time] (January 1, year 1, 00:00 UTC). *)
Definition zeroTime : Time := -62135596800 * Second.

Definition Time_Before (t u : Time) : bool := t <? u.
Definition Time_Add (t : Time) (d : Duration) : Time := t + d.

(** [t.Sub(u)]: the difference, saturated to the range of a Duration. *)
Definition Time_Sub (t u : Time) : Duration :=
  if t - u <? int_min then int_min
  else if int_max <? t - u then int_max
  else t - u.

(** ** Blocks and fork steps *)

Definition bytes : Type := list Byte.byte.

Record BlockHeader : Type := mkBlockHeader {
  hdrParentHash : bytes;
  hdrHash : bytes;
  hdrNumber : Z;
  hdrTimestamp : Time;
  hdrRest : bytes            (* the remaining header fields, opaque here *)
}.

Record Block : Type := mkBlock {
  Number : Z;
  Hash : bytes;
  Header : BlockHeader;
  Payload : bytes            (* transactions, uncles, ...: opaque here *)
}.

Definition MustTime (b : Block) : Time := hdrTimestamp (Header b).

(** [bstream.StepType] as the loader sees it: the two steps it handles,
    and every other value of the type. *)
Inductive StepType : Type :=
| StepNew
| StepIrreversible
| StepOther (bits : Z).

Record ForkableObject : Type := mkForkableObject {
  Step : StepType;
  StepCount : Z;
  StepIndex : Z;
  StepBlocks : list Block
}.

(** What [bstream] supplies and the sources do not show: the two protocol
    heights and the printer of step types. *)
Class Bstream : Type := {
  GetProtocolFirstStreamableBlock : Z;
  GetProtocolGenesisBlock : Z;
  StepType_String : StepType -> string
}.

(** ** The Commit Target *)

(** [trxdb.DBWriter], restricted to the methods the loader calls.  [Flush]
    receives a context with a one-minute deadline; an expired deadline is
    one of the errors it may answer with. *)
Class DBWriter (DB : Type) : Type := {
  PutBlock : Block -> DB -> option error * DB;
  UpdateNowIrreversibleBlock : Block -> DB -> option error * DB;
  Flush : DB -> option error * DB
}.

Inductive Event : Type :=
| EvPutBlock (b : Block)
| EvUpdateNowIrreversibleBlock (b : Block)
| EvFlush (blockNum : Z)
| EvShutdown (err : option error)
| EvSourceShutdown (err : option error).

Definition isPutBlock (e : Event) : bool :=
  match e with EvPutBlock _ => true | _ => false end.

Definition isFinalize (e : Event) : bool :=
  match e with EvUpdateNowIrreversibleBlock _ => true | _ => false end.

Definition isWrite (e : Event) : bool := isPutBlock e || isFinalize e.

Definition isCommitCall (e : Event) : bool :=
  match e with
  | EvPutBlock _ | EvUpdateNowIrreversibleBlock _ | EvFlush _ => true
  | EvShutdown _ | EvSourceShutdown _ => false
  end.

(** The block numbers handed to [PutBlock], in call order. *)
Fixpoint putNumbers (evs : list Event) : list Z :=
  match evs with
  | [] => []
  | EvPutBlock b :: rest => Number b :: putNumbers rest
  | _ :: rest => putNumbers rest
  end.

(** The block numbers at which a flush was issued, in call order. *)
Fixpoint flushedAt (evs : list Event) : list Z :=
  match evs with
  | [] => []
  | EvFlush n :: rest => n :: flushedAt rest
  | _ :: rest => flushedAt rest
  end.

(** ** Shutters *)

(** Modelled from the spec: the [shutter.Shutter] embedded in the loader and
    in every [bstream.Source] is not part of the sources.  A shutter shuts
    down once: the first [Shutdown(err)] records [err], runs the
    [OnTerminating] callbacks, then the [OnTerminated] ones; later calls do
    nothing. *)
Record Shutter : Type := mkShutter {
  isTerminating : bool;
  isTerminated : bool;
  shutterErr : option error
}.

Definition shutter_New : Shutter := mkShutter false false None.

Inductive JobKind : Type := TheFullJob | ThePatchJob.

Inductive Party : Type := TheLoader | TheSource.

Inductive panic : Type :=
| DivideByZero
| NilDereference.

(** ** The loader and its world *)

Section Loader.

Context {DB : Type} {dbw : DBWriter DB} {bs : Bstream}.

(** The fields of [BigtableLoader] the jobs read or write ([batchSize] to
    [healthy], the embedded shutter, the source and the database handle),
    the callbacks registered by [Launch], the two metrics gauges, the wall
    clock (its successive readings, and how many were taken) and the trace
    of outgoing calls. *)
Record World : Type := mkWorld {
  db : DB;
  batchSize : Z;
  lastTickBlock : Z;
  lastTickTime : Time;
  endBlock : Z;
  healthy : bool;
  processingJob : JobKind;
  shutter : Shutter;
  source : option Shutter;
  launched : bool;
  HeadBlockNumber : Z;
  HeadBlockTimeDrift : Time;
  clock : nat -> Time;
  clockReads : nat;
  trace : list Event
}.

Definition set_db (d : DB) (w : World) : World :=
  mkWorld d (batchSize w) (lastTickBlock w) (lastTickTime w) (endBlock w)
    (healthy w) (processingJob w) (shutter w) (source w) (launched w)
    (HeadBlockNumber w) (HeadBlockTimeDrift w) (clock w) (clockReads w)
    (trace w).

Definition set_lastTick (blockNum : Z) (t : Time) (w : World) : World :=
  mkWorld (db w) (batchSize w) blockNum t (endBlock w)
    (healthy w) (processingJob w) (shutter w) (source w) (launched w)
    (HeadBlockNumber w) (HeadBlockTimeDrift w) (clock w) (clockReads w)
    (trace w).

Definition set_endBlock (n : Z) (w : World) : World :=
  mkWorld (db w) (batchSize w) (lastTickBlock w) (lastTickTime w) n
    (healthy w) (processingJob w) (shutter w) (source w) (launched w)
    (HeadBlockNumber w) (HeadBlockTimeDrift w) (clock w) (clockReads w)
    (trace w).

Definition set_healthy (h : bool) (w : World) : World :=
  mkWorld (db w) (batchSize w) (lastTickBlock w) (lastTickTime w) (endBlock w)
    h (processingJob w) (shutter w) (source w) (launched w)
    (HeadBlockNumber w) (HeadBlockTimeDrift w) (clock w) (clockReads w)
    (trace w).

Definition set_processingJob (j : JobKind) (w : World) : World :=
  mkWorld (db w) (batchSize w) (lastTickBlock w) (lastTickTime w) (endBlock w)
    (healthy w) j (shutter w) (source w) (launched w)
    (HeadBlockNumber w) (HeadBlockTimeDrift w) (clock w) (clockReads w)
    (trace w).

Definition set_shutter (s : Shutter) (w : World) : World :=
  mkWorld (db w) (batchSize w) (lastTickBlock w) (lastTickTime w) (endBlock w)
    (healthy w) (processingJob w) s (source w) (launched w)
    (HeadBlockNumber w) (HeadBlockTimeDrift w) (clock w) (clockReads w)
    (trace w).

Definition set_source (s : option Shutter) (w : World) : World :=
  mkWorld (db w) (batchSize w) (lastTickBlock w) (lastTickTime w) (endBlock w)
    (healthy w) (processingJob w) (shutter w) s (launched w)
    (HeadBlockNumber w) (HeadBlockTimeDrift w) (clock w) (clockReads w)
    (trace w).

Definition set_launched (b : bool) (w : World) : World :=
  mkWorld (db w) (batchSize w) (lastTickBlock w) (lastTickTime w) (endBlock w)
    (healthy w) (processingJob w) (shutter w) (source w) b
    (HeadBlockNumber w) (HeadBlockTimeDrift w) (clock w) (clockReads w)
    (trace w).

Definition set_HeadBlockNumber (n : Z) (w : World) : World :=
  mkWorld (db w) (batchSize w) (lastTickBlock w) (lastTickTime w) (endBlock w)
    (healthy w) (processingJob w) (shutter w) (source w) (launched w)
    n (HeadBlockTimeDrift w) (clock w) (clockReads w)
    (trace w).

Definition set_HeadBlockTimeDrift (t : Time) (w : World) : World :=
  mkWorld (db w) (batchSize w) (lastTickBlock w) (lastTickTime w) (endBlock w)
    (healthy w) (processingJob w) (shutter w) (source w) (launched w)
    (HeadBlockNumber w) t (clock w) (clockReads w)
    (trace w).

Definition set_clockReads (k : nat) (w : World) : World :=
  mkWorld (db w) (batchSize w) (lastTickBlock w) (lastTickTime w) (endBlock w)
    (healthy w) (processingJob w) (shutter w) (source w) (launched w)
    (HeadBlockNumber w) (HeadBlockTimeDrift w) (clock w) k
    (trace w).

Definition log (e : Event) (w : World) : World :=
  mkWorld (db w) (batchSize w) (lastTickBlock w) (lastTickTime w) (endBlock w)
    (healthy w) (processingJob w) (shutter w) (source w) (launched w)
    (HeadBlockNumber w) (HeadBlockTimeDrift w) (clock w) (clockReads w)
    (trace w ++ [e]).

(** *** Outcomes and sequencing *)

Inductive Outcome (A : Type) : Type :=
| Returned (a : A) (w : World)
| Panicked (p : panic) (w : World).

Arguments Returned {A} a w.
Arguments Panicked {A} p w.

Definition world_of {A : Type} (o : Outcome A) : World :=
  match o with
  | Returned _ w => w
  | Panicked _ w => w
  end.

Definition M (A : Type) : Type := World -> Outcome A.

Definition ret {A : Type} (a : A) : M A := fun w => Returned a w.

Definition bind {A B : Type} (m : M A) (k : A -> M B) : M B :=
  fun w =>
    match m w with
    | Returned a w' => k a w'
    | Panicked p w' => Panicked p w'
    end.

Definition modify (f : World -> World) : M unit :=
  fun w => Returned tt (f w).

(** [defer d] around a body: [d] runs when the body returns, and also
    while a panic unwinds through it. *)
Definition defer {A : Type} (d : World -> World) (body : M A) : M A :=
  fun w =>
    match body w with
    | Returned a w' => Returned a (d w')
    | Panicked p w' => Panicked p (d w')
    end.

(** [if err := call; err != nil { return wrap(err) }], then [next]. *)
Definition check (call : M (option error)) (wrap : error -> error)
    (next : M (option error)) : M (option error) :=
  bind call (fun r =>
    match r with
    | Some err => ret (Some (wrap err))
    | None => next
    end).

(** *** Calls leaving the loader *)

Definition time_Now : M Time :=
  fun w => Returned (clock w (clockReads w)) (set_clockReads (S (clockReads w)) w).

(** [time.Since(t)] is [time.Now().Sub(t)]. *)
Definition time_Since (t : Time) : M Duration :=
  bind time_Now (fun now => ret (Time_Sub now t)).

Definition db_PutBlock (b : Block) : M (option error) :=
  fun w =>
    let (r, d) := PutBlock b (db w) in
    Returned r (set_db d (log (EvPutBlock b) w)).

Definition db_UpdateNowIrreversibleBlock (b : Block) : M (option error) :=
  fun w =>
    let (r, d) := UpdateNowIrreversibleBlock b (db w) in
    Returned r (set_db d (log (EvUpdateNowIrreversibleBlock b) w)).

Definition db_Flush (blockNum : Z) : M (option error) :=
  fun w =>
    let (r, d) := Flush (db w) in
    Returned r (set_db d (log (EvFlush blockNum) w)).

Definition metrics_HeadBlockNumber_SetUint64 (n : Z) (w : World) : World :=
  set_HeadBlockNumber n w.

Definition metrics_HeadBlockTimeDrift_SetBlockTime (t : Time) (w : World)
    : World :=
  set_HeadBlockTimeDrift t w.

(** *** Health *)

Definition setUnhealthy (w : World) : World :=
  if healthy w then set_healthy false w else w.

Definition setHealthy (w : World) : World :=
  if negb (healthy w) then set_healthy true w else w.

Definition Healthy (w : World) : bool := healthy w.

(** *** Shutdown *)

Definition srcTerminating (w : World) : bool :=
  match source w with
  | Some s => isTerminating s
  | None => false
  end.

Definition srcTerminated (w : World) : bool :=
  match source w with
  | Some s => isTerminated s
  | None => false
  end.

(** [Shutdown(err)] of the loader's shutter ([who = TheLoader]) or of the
    source's ([who = TheSource]), with the callbacks [Launch] registers:
    the source's [OnTerminating] shuts the loader down, its [OnTerminated]
    is [setUnhealthy], and the loader's [OnTerminating] shuts the source
    down.  The two call each other; [fuel] bounds the nesting, which the
    once-only guard keeps below three ([shutdownFrom_fuel]). *)
Fixpoint shutdownFrom (fuel : nat) (who : Party) (err : option error)
    (w : World) : World :=
  match fuel with
  | O => w
  | S fuel' =>
      match who with
      | TheLoader =>
          let w := log (EvShutdown err) w in
          if isTerminating (shutter w) then w
          else
            let w := set_shutter (mkShutter true false err) w in
            let w :=
              if launched w then shutdownFrom fuel' TheSource err w else w in
            set_shutter (mkShutter true true err) w
      | TheSource =>
          match source w with
          | None => w
          | Some s =>
              let w := log (EvSourceShutdown err) w in
              if isTerminating s then w
              else
                let w := set_source (Some (mkShutter true false err)) w in
                let w :=
                  if launched w then shutdownFrom fuel' TheLoader err w
                  else w in
                let w := set_source (Some (mkShutter true true err)) w in
                if launched w then setUnhealthy w else w
          end
      end
  end.

(** [l.Shutdown(err)] *)
Definition Shutdown (err : option error) (w : World) : World :=
  shutdownFrom 3 TheLoader err w.

(** [l.source.Shutdown(err)]: the source stops, of its own or because a
    handler failed. *)
Definition source_Shutdown (err : option error) (w : World) : World :=
  shutdownFrom 3 TheSource err w.

Definition IsTerminating (w : World) : bool := isTerminating (shutter w).

(** *** Construction and configuration *)

(** [NewBigtableLoader]: the fields it does not set hold Go's zero values;
    the address, the store and the download parallelism play no part in
    the jobs and are left out.  The gauges, the clock and an empty trace
    come from the environment. *)
Definition NewBigtableLoader (batchSize : Z) (d : DB)
    (now : nat -> Time) : World :=
  mkWorld d batchSize 0 zeroTime 0 false TheFullJob shutter_New None false
    0 zeroTime now 0%nat [].

(** [BuildPipelineJob], given what the start-block resolver answered: the
    gate, the fork resolver and the file source are behind [source]. *)
Definition BuildPipelineJob (resolved : option error) (job : JobKind)
    (w : World) : World :=
  let w := set_processingJob job w in
  match resolved with
  | Some err =>
      Shutdown (Some (Errorf_w "unable to resolve start block: " err)) w
  | None => set_source (Some shutter_New) w
  end.

Definition BuildPipelineBatch (resolved : option error) (w : World) : World :=
  BuildPipelineJob resolved TheFullJob w.

Definition BuildPipelinePatch (resolved : option error) (w : World) : World :=
  BuildPipelineJob resolved ThePatchJob w.

(** [Launch], up to the call of [l.source.Run()]: it registers the three
    callbacks.  What [Run] then does is the sequence of [SourceEvent]s
    below. *)
Definition Launch : M unit :=
  fun w =>
    match source w with
    | None => Panicked NilDereference w
    | Some _ => Returned tt (set_launched true w)
    end.

Definition StopBeforeBlock (blockNum : Z) (w : World) : World :=
  set_endBlock blockNum w.

(** *** Progress, flushing, finalizing *)

Notation "x <- m ;; k" := (bind m (fun x => k))
  (at level 61, m at next level, right associativity).
Notation "m ;;; k" := (bind m (fun _ => k))
  (at level 61, right associativity).

(** [ShowProgress]: the rate line it logs when [lastTickTime] is not the
    zero time leaves no mark on the world. *)
Definition ShowProgress (blockNum : Z) : M unit :=
  now <- time_Now ;;
  fun w =>
    if Time_Before (lastTickTime w) (Time_Add now (-5 * Second))
    then Returned tt (set_lastTick blockNum now w)
    else Returned tt w.

Definition DoFlush (blockNum : Z) : M (option error) :=
  check (db_Flush blockNum) (Errorf_w "flush failed: ") (ret None).

(** The condition of [FlushIfNeeded],
    [blockNum%l.batchSize == 0 || time.Since(blockTime) < 25*time.Second]:
    the remainder first, the clock only when the remainder is not zero. *)
Definition flushDue (blockNum : Z) (blockTime : Time) : M bool :=
  fun w =>
    match uint64_rem blockNum (batchSize w) with
    | None => Panicked DivideByZero w
    | Some r =>
        if r =? 0 then Returned true w
        else (d <- time_Since blockTime ;; ret (d <? 25 * Second)) w
    end.

Definition FlushIfNeeded (blockNum : Z) (blockTime : Time)
    : M (option error) :=
  due <- flushDue blockNum blockTime ;;
  if due : bool
  then check (DoFlush blockNum) (fun err => err)
         (modify (metrics_HeadBlockNumber_SetUint64 blockNum) ;;; ret None)
  else ret None.

Fixpoint UpdateIrreversibleData (nowIrreversibleBlocks : list Block)
    : M (option error) :=
  match nowIrreversibleBlocks with
  | [] => ret None
  | blk :: rest =>
      check (db_UpdateNowIrreversibleBlock blk) (fun err => err)
        (UpdateIrreversibleData rest)
  end.

(** *** The jobs *)

(** The stop-block test both jobs make on an Irreversible step:
    [l.endBlock != 0 && blockNum >= l.endBlock &&
     fObj.StepCount == fObj.StepIndex+1]. *)
Definition stopBlockReached (blockNum : Z) (fObj : ForkableObject)
    (w : World) : bool :=
  negb (endBlock w =? 0) && (endBlock w <=? blockNum)
  && (StepCount fObj =? int_add (StepIndex fObj) 1).

(** The sentinel [FullJob] builds from the first streamable block; the
    fields the literal leaves out are zero. *)
Definition genesisBlockOf (block : Block) : Block :=
  mkBlock GetProtocolGenesisBlock (hdrParentHash (Header block))
    (mkBlockHeader [] (hdrParentHash (Header block)) GetProtocolGenesisBlock
       (hdrTimestamp (Header block)) [])
    [].

Definition FullJob (blockNum : Z) (block : Block) (fObj : ForkableObject)
    : M (option error) :=
  let blkTime := MustTime block in
  match Step fObj with
  | StepNew =>
      ShowProgress blockNum ;;;
      modify setHealthy ;;;
      defer (metrics_HeadBlockTimeDrift_SetBlockTime blkTime)
        (defer (metrics_HeadBlockNumber_SetUint64 blockNum)
           (let storeBlock :=
              check (db_PutBlock block) (Errorf_s "store block: ")
                (FlushIfNeeded blockNum blkTime) in
            if blockNum =? GetProtocolFirstStreamableBlock
            then
              let genesisBlock := genesisBlockOf block in
              check (db_PutBlock genesisBlock)
                (Errorf_w "store genesis block: ")
                (check (db_UpdateNowIrreversibleBlock genesisBlock)
                   (Errorf_w "set genesis block irreversible: ")
                   storeBlock)
            else storeBlock))
  | StepIrreversible =>
      fun w =>
        if stopBlockReached blockNum fObj w
        then
          (err <- DoFlush blockNum ;;
           match err with
           | Some e => modify (Shutdown (Some e)) ;;; ret (Some e)
           | None => modify (Shutdown None) ;;; ret None
           end) w
        else if negb (StepIndex fObj =? 0)
        then Returned None w
        else
          check (UpdateIrreversibleData (StepBlocks fObj)) (fun err => err)
            (check (FlushIfNeeded blockNum blkTime) (fun err => err)
               (ret None)) w
  | StepOther _ =>
      ret (Some (Errorf_q "unsupported forkable step "
                   (StepType_String (Step fObj))))
  end.

Definition PatchJob (blockNum : Z) (blk : Block) (fObj : ForkableObject)
    : M (option error) :=
  match Step fObj with
  | StepNew =>
      ShowProgress blockNum ;;;
      FlushIfNeeded blockNum (MustTime blk)
  | StepIrreversible =>
      fun w =>
        if stopBlockReached blockNum fObj w
        then
          check (DoFlush blockNum) (fun err => err)
            (modify (Shutdown None) ;;; ret None) w
        else Returned None w
  | StepOther _ => ret None
  end.

Definition runJob (j : JobKind) : Z -> Block -> ForkableObject
    -> M (option error) :=
  match j with
  | TheFullJob => FullJob
  | ThePatchJob => PatchJob
  end.

(** [ProcessBlock]: the number of the [bstream.Block] is the number of the
    native block it carries. *)
Definition ProcessBlock (blk : Block) (obj : ForkableObject)
    : M (option error) :=
  fun w =>
    if IsTerminating w then Returned None w
    else runJob (processingJob w) (Number blk) blk obj w.

(** *** What happens to a launched loader *)

(** One thing [l.source.Run()] or the loader's owner can do next: hand a
    classified block to the handler, end the source, or ask the loader to
    shut down. *)
Inductive SourceEvent : Type :=
| Deliver (blk : Block) (obj : ForkableObject)
| SourceEnds (err : option error)
| LoaderStops (err : option error).

Definition handle (ev : SourceEvent) (w : World) : World :=
  match ev with
  | Deliver blk obj => world_of (ProcessBlock blk obj w)
  | SourceEnds err => source_Shutdown err w
  | LoaderStops err => Shutdown err w
  end.

Definition handleAll (evs : list SourceEvent) (w : World) : World :=
  fold_left (fun w ev => handle ev w) evs w.

(** [FlushIfNeeded] on each (number, timestamp) in turn, whatever the
    previous calls answered. *)
Fixpoint flushEach (blocks : list (Z * Time)) (w : World) : World :=
  match blocks with
  | [] => w
  | (n, t) :: rest => flushEach rest (world_of (FlushIfNeeded n t w))
  end.

End Loader.

Arguments World : clear implicits.
Arguments Outcome : clear implicits.
Arguments M : clear implicits.
Arguments Returned {DB A} a w.
Arguments Panicked {DB A} p w.

(** ** Specification-side vocabulary *)

Section Vocabulary.

Context {DB : Type} {dbw : DBWriter DB} {bs : Bstream}.

(** The answers the Commit Target gives when asked to finalize each block
    of a group in turn. *)
Fixpoint finalizeAnswers (blocks : list Block) (d : DB)
    : list (option error) :=
  match blocks with
  | [] => []
  | b :: rest =>
      let (r, d') := UpdateNowIrreversibleBlock b d in
      r :: finalizeAnswers rest d'
  end.

(** The first error among the answers, if any. *)
Fixpoint firstFailure (answers : list (option error)) : option error :=
  match answers with
  | [] => None
  | Some e :: _ => Some e
  | None :: rest => firstFailure rest
  end.

(** The blocks up to and including the first one whose answer is an
    error; all of them when no answer is. *)
Fixpoint throughFirstFailure (blocks : list Block)
    (answers : list (option error)) : list Block :=
  match blocks, answers with
  | b :: rest, None :: answers' => b :: throughFirstFailure rest answers'
  | b :: _, Some _ :: _ => [b]
  | _, _ => blocks
  end.

(** The writes a New delivery under [FullJob] makes when none fails. *)
Inductive WriteCall : Type :=
| CallPutBlock (b : Block)
| CallFinalize (b : Block).

Definition eventOf (c : WriteCall) : Event :=
  match c with
  | CallPutBlock b => EvPutBlock b
  | CallFinalize b => EvUpdateNowIrreversibleBlock b
  end.

Definition answer (c : WriteCall) (d : DB) : option error * DB :=
  match c with
  | CallPutBlock b => PutBlock b d
  | CallFinalize b => UpdateNowIrreversibleBlock b d
  end.

Definition newStepWrites (blockNum : Z) (block : Block) : list WriteCall :=
  if blockNum =? GetProtocolFirstStreamableBlock
  then [CallPutBlock (genesisBlockOf block);
        CallFinalize (genesisBlockOf block);
        CallPutBlock block]
  else [CallPutBlock block].

(** Does the Commit Target, from state [d], accept every call of the
    list? *)
Fixpoint accepts (calls : list WriteCall) (d : DB) : bool :=
  match calls with
  | [] => true
  | c :: rest =>
      match answer c d with
      | (None, d') => accepts rest d'
      | (Some _, _) => false
      end
  end.

(** How many times a given block was handed to [PutBlock]. *)
Fixpoint countPuts (same : Block -> bool) (evs : list Event) : nat :=
  match evs with
  | [] => O
  | EvPutBlock b :: rest =>
      if same b then S (countPuts same rest) else countPuts same rest
  | _ :: rest => countPuts same rest
  end.

(** Whether [FlushIfNeeded] flushes, for a batch size that is not zero:
    the remainder is zero, or the next clock reading is less than 25
    seconds past the block's timestamp. *)
Definition flushExpected (blockNum : Z) (blockTime : Time) (w : World DB)
    : bool :=
  (blockNum mod batchSize w =? 0)
  || (clock w (clockReads w) - blockTime <? 25 * Second).

(** The world right after the Commit Target answered the flush that
    [DoFlush blockNum] issues. *)
Definition afterFlush (blockNum : Z) (w : World DB) : World DB :=
  set_db (snd (Flush (db w))) (log (EvFlush blockNum) w).

(** The world a New delivery under [FullJob] is in once progress is shown
    and the loader marked healthy, before any write. *)
Definition entered (blockNum : Z) (w : World DB) : World DB :=
  setHealthy (world_of (ShowProgress blockNum w)).

(** What the two deferred gauge updates of [FullJob] leave behind: the
    head block number first, the head block time last. *)
Definition gaugesSet (blockNum : Z) (blkTime : Time) (w : World DB)
    : World DB :=
  metrics_HeadBlockTimeDrift_SetBlockTime blkTime
    (metrics_HeadBlockNumber_SetUint64 blockNum w).

(** The events a world has seen beyond those of an earlier one. *)
Definition eventsSince (w w' : World DB) : list Event :=
  List.skipn (List.length (trace w)) (trace w').

(** Two worlds that differ at most in what showing progress, marking
    health and setting gauges may change. *)
Definition sameTarget (w w' : World DB) : Prop :=
  db w' = db w /\ trace w' = trace w /\ batchSize w' = batchSize w
  /\ endBlock w' = endBlock w /\ shutter w' = shutter w
  /\ source w' = source w /\ launched w' = launched w
  /\ clock w' = clock w.

(** A computation keeps a relation between the world before it and the
    world after it, however it ends. *)
Definition preserves {A : Type} (P : World DB -> World DB -> Prop)
    (m : M DB A) : Prop :=
  forall w, P w (world_of (m w)).

(** What is configured once and for all: batch size, stop-block, job,
    the callbacks of [Launch], the clock. *)
Definition sameConfig (w w' : World DB) : Prop :=
  batchSize w' = batchSize w /\ endBlock w' = endBlock w
  /\ processingJob w' = processingJob w /\ launched w' = launched w
  /\ clock w' = clock w.

(** The later world has seen the events of the earlier one, then [evs]. *)
Definition extendedBy (evs : list Event) (w w' : World DB) : Prop :=
  trace w' = trace w ++ evs.

(** Nothing was asked of the Commit Target in between. *)
Definition quiet (w w' : World DB) : Prop :=
  db w' = db w
  /\ exists evs, extendedBy evs w w' /\ filter isCommitCall evs = [].

(** No block was put or finalized in between. *)
Definition writeFree (w w' : World DB) : Prop :=
  exists evs, extendedBy evs w w' /\ filter isWrite evs = [].

(** The deliveries the fork resolver makes for one Irreversible group:
    one per block, each carrying the whole group, its size and the
    position of the delivered block. *)
Definition groupDeliveries (blocks : list Block) : list SourceEvent :=
  map (fun ib : nat * Block =>
         Deliver (snd ib)
           (mkForkableObject StepIrreversible
              (Z.of_nat (List.length blocks)) (Z.of_nat (fst ib)) blocks))
    (combine (seq 0 (List.length blocks)) blocks).

End Vocabulary.

(** ** Commit Targets, protocol constants and blocks to run the model on *)

(** A Commit Target that accepts every call. *)
#[export] Instance acceptAll : DBWriter unit := {|
  PutBlock _ d := (None, d);
  UpdateNowIrreversibleBlock _ d := (None, d);
  Flush d := (None, d)
|}.

(** A Commit Target that answers from a script, one entry per call, and
    accepts every call once the script is used up. *)
Definition scriptedAnswer (d : list (option error))
    : option error * list (option error) :=
  match d with
  | [] => (None, [])
  | r :: rest => (r, rest)
  end.

#[export] Instance scripted : DBWriter (list (option error)) := {|
  PutBlock _ d := scriptedAnswer d;
  UpdateNowIrreversibleBlock _ d := scriptedAnswer d;
  Flush d := scriptedAnswer d
|}.

Definition stepName (s : StepType) : string :=
  match s with
  | StepNew => "new"
  | StepIrreversible => "irreversible"
  | StepOther _ => "other"
  end.

(** A protocol whose first streamable block is 1 and whose genesis is 0. *)
Definition protocol10 : Bstream := {|
  GetProtocolFirstStreamableBlock := 1;
  GetProtocolGenesisBlock := 0;
  StepType_String := stepName
|}.

Definition hashOf (n : Z) : bytes :=
  match Byte.of_N (Z.to_N (n mod 256)) with
  | Some b => [b]
  | None => []
  end.

(** The block of number [n] and timestamp [t], child of block [n - 1]. *)
Definition blockAt (n : Z) (t : Time) : Block :=
  mkBlock n (hashOf n) (mkBlockHeader (hashOf (n - 1)) (hashOf n) n t []) [].

Definition newStep : ForkableObject := mkForkableObject StepNew 1 0 [].

Definition irreversibleStep (count index : Z) (blocks : list Block)
    : ForkableObject :=
  mkForkableObject StepIrreversible count index blocks.

(** A clock that stands at [t]. *)
Definition clockAt (t : Time) : nat -> Time := fun _ => t.

(** One day, in nanoseconds: the sample blocks carry timestamp 0 and the
    sample clock stands a day later, so that they are old. *)
Definition aDay : Time := 86400 * Second.

Definition disconnect : error := errorString "connection lost".

(** A block of number [n] competing with [blockAt n t]: same parent,
    another hash. *)
Definition forkAt (n : Z) (t : Time) : Block :=
  mkBlock n (hashOf (n + 128))
    (mkBlockHeader (hashOf (n - 1)) (hashOf (n + 128)) n t []) [].

(** A loader built for a batch run ([BuildPipelineJob] with a start block
    that resolves), told to stop before [stop], and launched; the clock
    stands a day after the epoch. *)
Definition launchedLoader {DB : Type} (batch stop : Z) (d : DB)
    (job : JobKind) : World DB :=
  world_of
    (Launch
       (StopBeforeBlock stop
          (BuildPipelineJob None job
             (NewBigtableLoader batch d (clockAt aDay))))).

(** Blocks 1 to 250. *)
Definition oneTo250 : list Z := map Z.of_nat (seq 1 250).


(** ** Bundle sizes of the call-index generator *)

From Stdlib Require Import DecimalString.

(** [fmt.Errorf(prefix + "%d", n)] *)
Definition Errorf_d (prefix : string) (n : Z) : error :=
  errorString (prefix ++ NilZero.string_of_int (Z.to_int n))%string.

(** The loop [generateCalltoIdxE] runs over the [int] sizes of a flag
    ([irreversible-indexes-sizes], then [lookup-callto-indexes-sizes]) to
    get [uint64] sizes: it returns at the first negative size, and appends
    the others, converted, which leaves a size that is not negative as it
    is.  [acc] is the slice built so far. *)
Fixpoint bundleSizes (sizes : list Z) (acc : list Z) : error + list Z :=
  match sizes with
  | [] => inr acc
  | size :: rest =>
      if size <? 0
      then inl (Errorf_d "invalid negative size for bundle-sizes: " size)
      else bundleSizes rest (acc ++ [size])
  end.

(** * Properties *)

Section Properties.

Context {DB : Type} {dbw : DBWriter DB} {bs : Bstream}.

Implicit Types (w : World DB) (blockNum : Z) (block blk : Block)
  (fObj : ForkableObject).

(** ** Errors and arithmetic of the embedding *)

Lemma Unwrap_Errorf_w (prefix : string) (e : error) :
  Unwrap (Errorf_w prefix e) = Some e.
Proof. reflexivity. Qed.

Lemma Unwrap_Errorf_s (prefix : string) (e : error) :
  Unwrap (Errorf_s prefix e) = None.
Proof. reflexivity. Qed.

Lemma int_add_exact (a b : Z) : int_ok (a + b) -> int_add a b = a + b.
Proof.
  unfold int_ok, int_min, int_max, int_add. intros Hok.
  rewrite Z.mod_small; lia.
Qed.

Lemma Time_Sub_lt (t u : Time) (d : Duration) :
  int_min < d <= int_max -> (Time_Sub t u <? d) = (t - u <? d).
Proof.
  intros Hd. unfold Time_Sub.
  destruct (Z.ltb_spec (t - u) int_min) as [Hlo | Hlo].
  - transitivity true; [ | symmetry ]; apply Z.ltb_lt; lia.
  - destruct (Z.ltb_spec int_max (t - u)) as [Hhi | Hhi].
    + transitivity false; [ | symmetry ]; apply Z.ltb_ge; lia.
    + reflexivity.
Qed.

Lemma staleness_window_in_range : int_min < 25 * Second <= int_max.
Proof. unfold int_min, int_max, Second. lia. Qed.

(** ** The flush controller, step by step *)

Lemma DoFlush_eq blockNum w :
  DoFlush blockNum w =
  match Flush (db w) with
  | (Some e, d) =>
      Returned (Some (Errorf_w "flush failed: " e))
        (set_db d (log (EvFlush blockNum) w))
  | (None, d) => Returned None (set_db d (log (EvFlush blockNum) w))
  end.
Proof.
  unfold DoFlush, check, bind, db_Flush, ret.
  destruct (Flush (db w)) as [[e | ] d]; reflexivity.
Qed.

Lemma DoFlush_returns blockNum w :
  exists r w1,
    DoFlush blockNum w = Returned r w1
    /\ trace w1 = trace w ++ [EvFlush blockNum]
    /\ shutter w1 = shutter w /\ source w1 = source w
    /\ healthy w1 = healthy w /\ launched w1 = launched w
    /\ batchSize w1 = batchSize w /\ endBlock w1 = endBlock w
    /\ clock w1 = clock w /\ clockReads w1 = clockReads w.
Proof.
  rewrite DoFlush_eq.
  destruct (Flush (db w)) as [[e | ] d]; eexists; eexists;
    (split; [ reflexivity | simpl; repeat split ]).
Qed.

Lemma flushDue_eq blockNum blockTime w :
  batchSize w <> 0 ->
  exists w0,
    flushDue blockNum blockTime w
    = Returned (flushExpected blockNum blockTime w) w0
    /\ trace w0 = trace w /\ db w0 = db w
    /\ batchSize w0 = batchSize w /\ clock w0 = clock w
    /\ (clockReads w <= clockReads w0)%nat.
Proof.
  intros Hbs. unfold flushDue, flushExpected, uint64_rem.
  destruct (Z.eqb_spec (batchSize w) 0) as [ | _ ]; [ contradiction | ].
  destruct (blockNum mod batchSize w =? 0).
  - exists w. repeat split. apply Nat.le_refl.
  - cbv beta iota delta [time_Since time_Now bind ret].
    rewrite (Time_Sub_lt _ _ _ staleness_window_in_range).
    eexists. split; [ reflexivity | ]. simpl. repeat split.
    apply Nat.le_succ_diag_r.
Qed.

Lemma FlushIfNeeded_trace blockNum blockTime w :
  batchSize w <> 0 ->
  exists r w',
    FlushIfNeeded blockNum blockTime w = Returned r w'
    /\ trace w' =
       trace w ++ (if flushExpected blockNum blockTime w
                   then [EvFlush blockNum] else [])
    /\ batchSize w' = batchSize w /\ clock w' = clock w
    /\ (clockReads w <= clockReads w')%nat.
Proof.
  intros Hbs. unfold FlushIfNeeded, bind.
  destruct (flushDue_eq blockNum blockTime w Hbs)
    as (w0 & -> & Htr & Hdb & Hb & Hc & Hk).
  destruct (flushExpected blockNum blockTime w).
  - unfold check, bind. rewrite DoFlush_eq.
    destruct (Flush (db w0)) as [[e | ] d]; eexists; eexists;
      (split; [ reflexivity | ]); simpl; rewrite Htr; auto.
  - exists None, w0. rewrite Htr, app_nil_r. auto.
Qed.

Lemma FlushIfNeeded_divides_by_zero blockNum blockTime w :
  batchSize w = 0 ->
  FlushIfNeeded blockNum blockTime w = Panicked DivideByZero w.
Proof.
  intros Hbs. unfold FlushIfNeeded, bind, flushDue, uint64_rem.
  rewrite Hbs. reflexivity.
Qed.

(** ** Shutting down *)

(** Three levels of nesting are all a shutdown ever uses. *)
Lemma shutdownFrom_fuel (n : nat) (who : Party) (err : option error) w :
  shutdownFrom (3 + n) who err w = shutdownFrom 3 who err w.
Proof.
  destruct w as [d bsz ltb ltt eb h pj [tg td se] src la hbn hbt ck cr tr].
  destruct who, tg, la, src as [[[ | ] std sse] | ], h;
    lazy; reflexivity.
Qed.

Lemma Shutdown_terminating (err : option error) w :
  IsTerminating (Shutdown err w) = true.
Proof.
  destruct w as [d bsz ltb ltt eb h pj [tg td se] src la hbn hbt ck cr tr].
  destruct tg, la, src as [[[ | ] std sse] | ], h; lazy; reflexivity.
Qed.

(** The calls a loader shutdown adds to the trace start with itself and
    never reach the Commit Target. *)
Lemma Shutdown_trace (err : option error) w :
  exists evs,
    trace (Shutdown err w) = trace w ++ EvShutdown err :: evs
    /\ filter isCommitCall evs = []
    /\ db (Shutdown err w) = db w.
Proof.
  destruct w as [d bsz ltb ltt eb h pj [tg td se] src la hbn hbt ck cr tr].
  destruct tg, la, src as [[[ | ] std sse] | ], h; lazy -[app];
    rewrite <- ?app_assoc; lazy -[app];
    first
      [ exists []; repeat split; fail
      | exists [EvSourceShutdown err]; repeat split; fail
      | exists [EvSourceShutdown err; EvShutdown err]; repeat split ].
Qed.

Lemma Shutdown_records (err : option error) w :
  IsTerminating w = false ->
  shutterErr (shutter (Shutdown err w)) = err.
Proof.
  destruct w as [d bsz ltb ltt eb h pj [tg td se] src la hbn hbt ck cr tr].
  unfold IsTerminating. cbn [shutter isTerminating]. intros ->.
  destruct la, src as [[[ | ] std sse] | ], h; lazy; reflexivity.
Qed.

(** ** The jobs, case by case *)

Lemma stopBlockReached_true blockNum fObj w :
  endBlock w <> 0 -> endBlock w <= blockNum ->
  int_ok (StepCount fObj) -> StepIndex fObj + 1 = StepCount fObj ->
  stopBlockReached blockNum fObj w = true.
Proof.
  intros Hset Hreach Hok Hlast. unfold stopBlockReached.
  rewrite int_add_exact by (rewrite Hlast; exact Hok).
  rewrite Hlast, Z.eqb_refl, andb_true_r.
  apply andb_true_intro; split.
  - apply negb_true_iff, Z.eqb_neq, Hset.
  - apply Z.leb_le, Hreach.
Qed.

Lemma FullJob_Irreversible blockNum block fObj w :
  Step fObj = StepIrreversible ->
  FullJob blockNum block fObj w =
  if stopBlockReached blockNum fObj w
  then
    match DoFlush blockNum w with
    | Returned (Some e) w1 => Returned (Some e) (Shutdown (Some e) w1)
    | Returned None w1 => Returned None (Shutdown None w1)
    | Panicked p w1 => Panicked p w1
    end
  else if negb (StepIndex fObj =? 0)
  then Returned None w
  else
    match UpdateIrreversibleData (StepBlocks fObj) w with
    | Returned (Some e) w1 => Returned (Some e) w1
    | Returned None w1 => FlushIfNeeded blockNum (MustTime block) w1
    | Panicked p w1 => Panicked p w1
    end.
Proof.
  intros Hstep. unfold FullJob. rewrite Hstep.
  destruct (stopBlockReached blockNum fObj w).
  - unfold bind. destruct (DoFlush blockNum w) as [[e | ] w1 | p w1];
      reflexivity.
  - destruct (negb (StepIndex fObj =? 0)); [ reflexivity | ].
    unfold check at 1. unfold bind at 1.
    destruct (UpdateIrreversibleData (StepBlocks fObj) w)
      as [[e | ] w1 | p w1]; try reflexivity.
    unfold check, bind, ret.
    destruct (FlushIfNeeded blockNum (MustTime block) w1)
      as [[e | ] w2 | p w2]; reflexivity.
Qed.

Lemma PatchJob_Irreversible blockNum blk fObj w :
  Step fObj = StepIrreversible ->
  PatchJob blockNum blk fObj w =
  if stopBlockReached blockNum fObj w
  then
    match DoFlush blockNum w with
    | Returned (Some e) w1 => Returned (Some e) w1
    | Returned None w1 => Returned None (Shutdown None w1)
    | Panicked p w1 => Panicked p w1
    end
  else Returned None w.
Proof.
  intros Hstep. unfold PatchJob. rewrite Hstep.
  destruct (stopBlockReached blockNum fObj w); [ | reflexivity ].
  unfold check, bind.
  destruct (DoFlush blockNum w) as [[e | ] w1 | p w1]; reflexivity.
Qed.

Lemma FullJob_stop_block_cutoff_eq blockNum block fObj w :
  Step fObj = StepIrreversible ->
  endBlock w <> 0 -> endBlock w <= blockNum ->
  int_ok (StepCount fObj) -> StepIndex fObj + 1 = StepCount fObj ->
  (forall e, fst (Flush (db w)) = Some e ->
     let err := Some (Errorf_w "flush failed: " e) in
     FullJob blockNum block fObj w
     = Returned err (Shutdown err (afterFlush blockNum w)))
  /\ (fst (Flush (db w)) = None ->
      FullJob blockNum block fObj w
      = Returned None (Shutdown None (afterFlush blockNum w))).
Proof.
  intros Hstep Hset Hreach Hok Hlast.
  rewrite (FullJob_Irreversible _ _ _ _ Hstep).
  rewrite (stopBlockReached_true _ _ _ Hset Hreach Hok Hlast).
  rewrite DoFlush_eq. unfold afterFlush.
  destruct (Flush (db w)) as [[e | ] d]; cbn [fst snd]; split;
    try discriminate; try reflexivity.
  intros e' [= <-]. reflexivity.
Qed.

(** C6.  On an Irreversible delivery with a stop-block configured, the
    block number at or past it and [StepIndex+1 == StepCount], [FullJob]
    flushes unconditionally and then shuts the loader down: when the flush
    succeeds, with a nil error, returning nil; when it fails, with the
    flush error, returning it.  Either way the loader is terminating
    afterwards, and a loader that was not terminating records exactly the
    error it returns. *)
Theorem FullJob_stop_block_cutoff blockNum block fObj w :
  Step fObj = StepIrreversible ->
  endBlock w <> 0 -> endBlock w <= blockNum ->
  int_ok (StepCount fObj) -> StepIndex fObj + 1 = StepCount fObj ->
  trace (afterFlush blockNum w) = trace w ++ [EvFlush blockNum]
  /\ (forall e, fst (Flush (db w)) = Some e ->
        let err := Some (Errorf_w "flush failed: " e) in
        FullJob blockNum block fObj w
        = Returned err (Shutdown err (afterFlush blockNum w)))
  /\ (fst (Flush (db w)) = None ->
        FullJob blockNum block fObj w
        = Returned None (Shutdown None (afterFlush blockNum w)))
  /\ IsTerminating (world_of (FullJob blockNum block fObj w)) = true
  /\ (IsTerminating w = false ->
        exists r w',
          FullJob blockNum block fObj w = Returned r w'
          /\ shutterErr (shutter w') = r).
Proof.
  intros Hstep Hset Hreach Hok Hlast.
  destruct (FullJob_stop_block_cutoff_eq blockNum block fObj w
              Hstep Hset Hreach Hok Hlast) as (Hfail & Hclean).
  split; [ reflexivity | ]. split; [ exact Hfail | ].
  split; [ exact Hclean | ].
  destruct (fst (Flush (db w))) as [e | ] eqn:Hans.
  - rewrite (Hfail e eq_refl). cbv zeta. cbn [world_of]. split.
    + apply Shutdown_terminating.
    + intros Hrun. eexists; eexists. split; [ reflexivity | ].
      apply Shutdown_records. exact Hrun.
  - rewrite (Hclean eq_refl). cbn [world_of]. split.
    + apply Shutdown_terminating.
    + intros Hrun. eexists; eexists. split; [ reflexivity | ].
      apply Shutdown_records. exact Hrun.
Qed.

(** C10.  When the forced flush of the stop-block cutoff fails, [PatchJob]
    returns the flush error and leaves the world as the flush left it: no
    [Shutdown] is called and the loader is no more terminating than
    before.  [FullJob], on the same delivery, calls [Shutdown] with that
    error right after the flush and then returns it. *)
Theorem cutoff_flush_failure_PatchJob_vs_FullJob blockNum block fObj w e :
  Step fObj = StepIrreversible ->
  endBlock w <> 0 -> endBlock w <= blockNum ->
  int_ok (StepCount fObj) -> StepIndex fObj + 1 = StepCount fObj ->
  fst (Flush (db w)) = Some e ->
  let err := Some (Errorf_w "flush failed: " e) in
  (PatchJob blockNum block fObj w = Returned err (afterFlush blockNum w)
   /\ trace (afterFlush blockNum w) = trace w ++ [EvFlush blockNum]
   /\ shutter (afterFlush blockNum w) = shutter w)
  /\ (FullJob blockNum block fObj w
      = Returned err (Shutdown err (afterFlush blockNum w))
      /\ (exists evs,
            trace (Shutdown err (afterFlush blockNum w))
            = trace w ++ [EvFlush blockNum; EvShutdown err] ++ evs)
      /\ IsTerminating (Shutdown err (afterFlush blockNum w)) = true).
Proof.
  intros Hstep Hset Hreach Hok Hlast Hfail err.
  pose proof (stopBlockReached_true _ _ _ Hset Hreach Hok Hlast) as Hcut.
  rewrite (PatchJob_Irreversible _ _ _ _ Hstep).
  rewrite (FullJob_Irreversible _ _ _ _ Hstep).
  rewrite Hcut, DoFlush_eq. unfold afterFlush.
  destruct (Flush (db w)) as [r d]. cbn [fst snd] in *. subst r.
  repeat split.
  - destruct (Shutdown_trace err (set_db d (log (EvFlush blockNum) w)))
      as (evs & Htr & _ & _).
    exists evs. rewrite Htr. cbn [trace set_db log].
    rewrite <- app_assoc. reflexivity.
  - apply Shutdown_terminating.
Qed.

(** C7, as the code has it.  On a delivery whose step is neither New nor
    Irreversible, [FullJob] returns the "unsupported forkable step" error
    at once and [PatchJob] returns nil at once; neither touches the
    world. *)
Theorem other_step_FullJob_fails_PatchJob_ignores blockNum block fObj w :
  Step fObj <> StepNew -> Step fObj <> StepIrreversible ->
  FullJob blockNum block fObj w
  = Returned
      (Some (Errorf_q "unsupported forkable step "
               (StepType_String (Step fObj)))) w
  /\ PatchJob blockNum block fObj w = Returned None w.
Proof.
  intros Hnew Hirr. unfold FullJob, PatchJob.
  destruct (Step fObj); [ contradiction | contradiction | ].
  split; reflexivity.
Qed.

(** ** Reading fields through setters *)

Ltac fields :=
  cbn
    [set_db set_lastTick set_endBlock set_healthy set_processingJob
     set_shutter set_source set_launched set_HeadBlockNumber
     set_HeadBlockTimeDrift set_clockReads log
     metrics_HeadBlockNumber_SetUint64
     metrics_HeadBlockTimeDrift_SetBlockTime gaugesSet
     db batchSize lastTickBlock lastTickTime endBlock healthy processingJob
     shutter source launched HeadBlockNumber HeadBlockTimeDrift clock
     clockReads trace fst snd world_of].

Lemma sameTarget_refl w : sameTarget w w.
Proof. repeat split. Qed.

Lemma ShowProgress_returns blockNum w :
  exists w0, ShowProgress blockNum w = Returned tt w0 /\ sameTarget w w0
             /\ healthy w0 = healthy w.
Proof.
  unfold ShowProgress, bind, time_Now.
  match goal with |- context [if ?c then _ else _] => destruct c end;
    eexists; (split; [ reflexivity | ]); repeat split.
Qed.

Lemma setHealthy_healthy w : healthy (setHealthy w) = true.
Proof. unfold setHealthy. destruct (healthy w) eqn:E; simpl; auto. Qed.

Lemma setHealthy_sameTarget w : sameTarget w (setHealthy w).
Proof. unfold setHealthy. destruct (healthy w); repeat split. Qed.

Lemma entered_sameTarget blockNum w : sameTarget w (entered blockNum w).
Proof.
  unfold entered.
  destruct (ShowProgress_returns blockNum w) as (w0 & -> & H0 & _).
  cbn [world_of].
  unfold setHealthy. destruct (healthy w0); exact H0.
Qed.

Lemma entered_healthy blockNum w : healthy (entered blockNum w) = true.
Proof. apply setHealthy_healthy. Qed.

Lemma FullJob_New blockNum block fObj w :
  Step fObj = StepNew ->
  FullJob blockNum block fObj w =
  let storeBlock :=
    check (db_PutBlock block) (Errorf_s "store block: ")
      (FlushIfNeeded blockNum (MustTime block)) in
  let body :=
    if blockNum =? GetProtocolFirstStreamableBlock
    then
      check (db_PutBlock (genesisBlockOf block))
        (Errorf_w "store genesis block: ")
        (check (db_UpdateNowIrreversibleBlock (genesisBlockOf block))
           (Errorf_w "set genesis block irreversible: ")
           storeBlock)
    else storeBlock in
  match body (entered blockNum w) with
  | Returned r w' => Returned r (gaugesSet blockNum (MustTime block) w')
  | Panicked p w' => Panicked p (gaugesSet blockNum (MustTime block) w')
  end.
Proof.
  intros Hstep. unfold FullJob. rewrite Hstep. unfold entered.
  destruct (ShowProgress_returns blockNum w) as (w0 & Hw0 & _).
  unfold bind at 1. rewrite Hw0. unfold bind at 1. unfold modify at 1.
  cbn [world_of]. unfold defer, gaugesSet.
  match goal with
  | |- match match ?b with _ => _ end with _ => _ end = _ =>
      destruct b; reflexivity
  end.
Qed.

Lemma PatchJob_New blockNum blk fObj w :
  Step fObj = StepNew ->
  PatchJob blockNum blk fObj w
  = FlushIfNeeded blockNum (MustTime blk) (world_of (ShowProgress blockNum w)).
Proof.
  intros Hstep. unfold PatchJob. rewrite Hstep.
  destruct (ShowProgress_returns blockNum w) as (w0 & Hw0 & _).
  unfold bind at 1. rewrite Hw0. reflexivity.
Qed.

Lemma flush_and_gauge blockNum w :
  let w' := world_of
    (check (DoFlush blockNum) (fun err => err)
       (bind (modify (metrics_HeadBlockNumber_SetUint64 blockNum))
          (fun _ => ret None)) w) in
  trace w' = trace w ++ [EvFlush blockNum]
  /\ db w' = snd (Flush (db w))
  /\ shutter w' = shutter w /\ source w' = source w
  /\ healthy w' = healthy w.
Proof.
  unfold check, bind. rewrite DoFlush_eq.
  destruct (Flush (db w)) as [[e | ] d]; repeat split.
Qed.

(** Whatever [FlushIfNeeded] does, it reaches the Commit Target with one
    flush or not at all, and leaves the shutters alone. *)
Lemma FlushIfNeeded_calls blockNum blockTime w :
  let w' := world_of (FlushIfNeeded blockNum blockTime w) in
  ((trace w' = trace w /\ db w' = db w)
   \/ (trace w' = trace w ++ [EvFlush blockNum]
       /\ db w' = snd (Flush (db w))))
  /\ shutter w' = shutter w /\ source w' = source w
  /\ healthy w' = healthy w.
Proof.
  unfold FlushIfNeeded, bind, flushDue.
  destruct (uint64_rem blockNum (batchSize w)) as [r | ];
    [ | cbn [world_of]; auto ].
  destruct (r =? 0).
  - destruct (flush_and_gauge blockNum w) as (? & ? & ? & ? & ?). auto.
  - unfold time_Since, time_Now, bind, ret.
    match goal with |- context [if ?c then _ else _] => destruct c end.
    + destruct (flush_and_gauge blockNum
                  (set_clockReads (S (clockReads w)) w))
        as (? & ? & ? & ? & ?).
      auto.
    + cbn [world_of]. fields. auto.
Qed.

(** ** Finalizing a group *)

(** Everything but the database and the trace. *)
Lemma UpdateIrreversibleData_run (blocks : list Block) w :
  exists w1,
    UpdateIrreversibleData blocks w
    = Returned (firstFailure (finalizeAnswers blocks (db w))) w1
    /\ trace w1 =
       trace w ++ map EvUpdateNowIrreversibleBlock
                    (throughFirstFailure blocks
                       (finalizeAnswers blocks (db w)))
    /\ batchSize w1 = batchSize w /\ endBlock w1 = endBlock w
    /\ shutter w1 = shutter w /\ source w1 = source w
    /\ healthy w1 = healthy w /\ launched w1 = launched w
    /\ clock w1 = clock w /\ clockReads w1 = clockReads w.
Proof.
  revert w. induction blocks as [ | b rest IH]; intros w.
  - exists w. cbn. rewrite app_nil_r. repeat split.
  - cbn [UpdateIrreversibleData finalizeAnswers].
    unfold check at 1. unfold bind at 1.
    unfold db_UpdateNowIrreversibleBlock at 1.
    destruct (UpdateNowIrreversibleBlock b (db w)) as [[e | ] d] eqn:Hans.
    + eexists. split; [ reflexivity | ]. repeat split.
    + destruct (IH (set_db d (log (EvUpdateNowIrreversibleBlock b) w)))
        as (w1 & Hrun & Htr & Hrest).
      exists w1. cbn [firstFailure throughFirstFailure map].
      split; [ exact Hrun | ]. split; [ | exact Hrest ].
      rewrite Htr. cbn [trace set_db log db]. rewrite <- app_assoc.
      reflexivity.
Qed.

Lemma throughFirstFailure_all (blocks : list Block)
    (answers : list (option error)) :
  firstFailure answers = None ->
  throughFirstFailure blocks answers = blocks.
Proof.
  revert answers. induction blocks as [ | b rest IH]; intros answers Hok.
  - destruct answers as [ | [e | ] ?]; reflexivity.
  - destruct answers as [ | [e | ] answers']; cbn in *;
      [ reflexivity | discriminate | ].
    rewrite IH by exact Hok. reflexivity.
Qed.

(** C2.  On an Irreversible delivery that does not hit the stop-block
    cutoff, [FullJob] does nothing and returns nil when [StepIndex] is not
    zero; when it is zero, it finalizes the blocks of [StepBlocks] in group
    order up to and including the first one the Commit Target refuses,
    returns that refusal, and when none is refused hands over to
    [FlushIfNeeded]. *)
Theorem FullJob_irreversible_group blockNum block fObj w :
  Step fObj = StepIrreversible ->
  stopBlockReached blockNum fObj w = false ->
  (StepIndex fObj <> 0 ->
     FullJob blockNum block fObj w = Returned None w)
  /\ (StepIndex fObj = 0 ->
      let answers := finalizeAnswers (StepBlocks fObj) (db w) in
      let finalized := throughFirstFailure (StepBlocks fObj) answers in
      exists w1,
        UpdateIrreversibleData (StepBlocks fObj) w
        = Returned (firstFailure answers) w1
        /\ trace w1
           = trace w ++ map EvUpdateNowIrreversibleBlock finalized
        /\ match firstFailure answers with
           | Some e => FullJob blockNum block fObj w = Returned (Some e) w1
           | None =>
               finalized = StepBlocks fObj
               /\ FullJob blockNum block fObj w
                  = FlushIfNeeded blockNum (MustTime block) w1
           end).
Proof.
  intros Hstep Hcut.
  rewrite (FullJob_Irreversible _ _ _ _ Hstep), Hcut. split.
  - intros Hdup. apply Z.eqb_neq in Hdup. rewrite Hdup. reflexivity.
  - intros Hfirst. rewrite Hfirst. cbn [Z.eqb negb].
    destruct (UpdateIrreversibleData_run (StepBlocks fObj) w)
      as (w1 & Hrun & Htr & _).
    exists w1. split; [ exact Hrun | ]. split; [ exact Htr | ].
    rewrite Hrun.
    destruct (firstFailure (finalizeAnswers (StepBlocks fObj) (db w)))
      as [e | ] eqn:Hans; [ reflexivity | ].
    split; [ | reflexivity ].
    apply throughFirstFailure_all. exact Hans.
Qed.

(** C8.  [PatchJob] never writes: whatever the delivery, the [PutBlock]
    and [UpdateNowIrreversibleBlock] calls of the trace are those that
    were there before.  On New it shows progress and runs the flush
    controller, reaching the Commit Target with one flush at most; on
    Irreversible it leaves the world untouched unless the stop-block cutoff
    applies, where its only call on the Commit Target is the forced
    flush. *)
Theorem PatchJob_writes_nothing blockNum blk fObj w :
  let w' := world_of (PatchJob blockNum blk fObj w) in
  filter isWrite (trace w') = filter isWrite (trace w)
  /\ match Step fObj with
     | StepNew =>
         PatchJob blockNum blk fObj w
         = FlushIfNeeded blockNum (MustTime blk)
             (world_of (ShowProgress blockNum w))
         /\ ((trace w' = trace w /\ db w' = db w)
             \/ (trace w' = trace w ++ [EvFlush blockNum]
                 /\ db w' = snd (Flush (db w))))
     | StepIrreversible =>
         if stopBlockReached blockNum fObj w
         then
           filter isCommitCall (trace w')
           = filter isCommitCall (trace w) ++ [EvFlush blockNum]
           /\ db w' = snd (Flush (db w))
         else PatchJob blockNum blk fObj w = Returned None w
     | StepOther _ => PatchJob blockNum blk fObj w = Returned None w
     end.
Proof.
  intros w'. subst w'.
  destruct (Step fObj) as [ | | bits] eqn:Hstep.
  - rewrite (PatchJob_New _ _ _ _ Hstep).
    destruct (ShowProgress_returns blockNum w)
      as (w0 & Hw0 & (Hdb & Htr & _) & _).
    rewrite Hw0. cbn [world_of].
    destruct (FlushIfNeeded_calls blockNum (MustTime blk) w0)
      as ([[H1 H2] | [H1 H2]] & _); cbv zeta in *;
      rewrite H1, H2, Htr, Hdb.
    + split; [ reflexivity | ]. split; [ reflexivity | ]. auto.
    + split; [ | split; [ reflexivity | auto ] ].
      rewrite filter_app. cbn. apply app_nil_r.
  - rewrite (PatchJob_Irreversible _ _ _ _ Hstep).
    destruct (stopBlockReached blockNum fObj w); [ | split; reflexivity ].
    rewrite DoFlush_eq.
    destruct (Flush (db w)) as [[e | ] d]; cbn [world_of snd].
    + fields. rewrite !filter_app. cbn. rewrite app_nil_r.
      repeat split.
    + destruct (Shutdown_trace None (set_db d (log (EvFlush blockNum) w)))
        as (evs & Htr & Hevs & Hdb).
      rewrite Htr, Hdb. fields.
      assert (Hw : filter isWrite evs = []).
      { clear - Hevs. induction evs as [ | [ | | | | ] evs IH];
          cbn in *; try discriminate; auto. }
      rewrite <- app_assoc, !filter_app. cbn.
      rewrite Hw, Hevs, app_nil_r. repeat split.
  - unfold PatchJob. rewrite Hstep. split; reflexivity.
Qed.

(** ** New deliveries under the full job *)

Lemma db_PutBlock_eq (b : Block) w :
  db_PutBlock b w
  = Returned (fst (PutBlock b (db w)))
      (set_db (snd (PutBlock b (db w))) (log (EvPutBlock b) w)).
Proof. unfold db_PutBlock. destruct (PutBlock b (db w)); reflexivity. Qed.

Lemma db_UpdateNowIrreversibleBlock_eq (b : Block) w :
  db_UpdateNowIrreversibleBlock b w
  = Returned (fst (UpdateNowIrreversibleBlock b (db w)))
      (set_db (snd (UpdateNowIrreversibleBlock b (db w)))
         (log (EvUpdateNowIrreversibleBlock b) w)).
Proof.
  unfold db_UpdateNowIrreversibleBlock.
  destruct (UpdateNowIrreversibleBlock b (db w)); reflexivity.
Qed.

(** Opens a New delivery of [FullJob] up to its first call on the Commit
    Target, with the database read in the world before the delivery. *)
Ltac next_call :=
  fields;
  rewrite ?db_PutBlock_eq, ?db_UpdateNowIrreversibleBlock_eq;
  fields;
  repeat match goal with
         | H : db (entered _ _) = _ |- _ => rewrite !H
         | H : trace (entered _ _) = _ |- _ => rewrite !H
         end.

Ltac open_new Hstep blockNum w :=
  rewrite (FullJob_New _ _ _ _ Hstep); cbv zeta;
  destruct (entered_sameTarget blockNum w) as (Hdb & Htr & Hbs & _);
  unfold newStepWrites;
  destruct (blockNum =? GetProtocolFirstStreamableBlock) eqn:Hfirst;
  unfold check, bind, ret;
  next_call.

(** C9, as the code has it.  [FlushIfNeeded] returns for every batch size
    other than zero and panics on the division for batch size zero,
    whatever the block.  With batch size zero a New delivery under
    [PatchJob] therefore always panics; under [FullJob] it panics when the
    Commit Target accepts the delivery's writes, and returns the error of
    the refused write, without reaching the division, when it does not. *)
Theorem FlushIfNeeded_total_iff_batchSize_nonzero blockNum block fObj w :
  Step fObj = StepNew ->
  (batchSize w <> 0 ->
     forall n t, exists r w', FlushIfNeeded n t w = Returned r w')
  /\ (batchSize w = 0 ->
      (forall n t, FlushIfNeeded n t w = Panicked DivideByZero w)
      /\ (exists w', PatchJob blockNum block fObj w
                     = Panicked DivideByZero w')
      /\ (if accepts (newStepWrites blockNum block) (db w)
          then exists w', FullJob blockNum block fObj w
                          = Panicked DivideByZero w'
          else exists e w', FullJob blockNum block fObj w
                            = Returned (Some e) w')).
Proof.
  intros Hstep. split.
  - intros Hbs n t.
    destruct (FlushIfNeeded_trace n t w Hbs) as (r & w' & Hrun & _).
    exists r, w'. exact Hrun.
  - intros Hzero. split; [ | split ].
    + intros n t. apply FlushIfNeeded_divides_by_zero, Hzero.
    + rewrite (PatchJob_New _ _ _ _ Hstep).
      destruct (ShowProgress_returns blockNum w)
        as (w0 & Hw0 & (_ & _ & Hbs0 & _) & _).
      rewrite Hw0. cbn [world_of]. exists w0.
      apply FlushIfNeeded_divides_by_zero. congruence.
    + open_new Hstep blockNum w; cbn [accepts answer].
      * destruct (PutBlock (genesisBlockOf block) (db w)) as [[e | ] d1];
          next_call; [ eexists; eexists; reflexivity | ].
        destruct (UpdateNowIrreversibleBlock (genesisBlockOf block) d1)
          as [[e | ] d2];
          next_call; [ eexists; eexists; reflexivity | ].
        destruct (PutBlock block d2) as [[e | ] d3];
          next_call; [ eexists; eexists; reflexivity | ].
        rewrite FlushIfNeeded_divides_by_zero
          by (fields; congruence).
        eexists; reflexivity.
      * destruct (PutBlock block (db w)) as [[e | ] d3];
          next_call; [ eexists; eexists; reflexivity | ].
        rewrite FlushIfNeeded_divides_by_zero
          by (fields; congruence).
        eexists; reflexivity.
Qed.

(** ** The flush condition *)

Lemma eventsSince_app w w' (evs : list Event) :
  trace w' = trace w ++ evs -> eventsSince w w' = evs.
Proof.
  intros Htr. unfold eventsSince. rewrite Htr.
  rewrite skipn_app, Nat.sub_diag, skipn_all. reflexivity.
Qed.

Lemma flushedAt_flushes (ns : list Z) : flushedAt (map EvFlush ns) = ns.
Proof. induction ns as [ | n ns IH]; cbn; congruence. Qed.

Lemma flushEach_trace (blocks : list (Z * Time)) w :
  batchSize w <> 0 ->
  (forall (k : nat) t, In t (map snd blocks) ->
     25 * Second <= clock w k - t) ->
  trace (flushEach blocks w)
  = trace w ++ map EvFlush
                 (filter (fun n => n mod batchSize w =? 0)
                    (map fst blocks)).
Proof.
  revert w. induction blocks as [ | [n t] rest IH]; intros w Hbs Hold.
  - cbn. rewrite app_nil_r. reflexivity.
  - cbn [flushEach map fst snd filter].
    destruct (FlushIfNeeded_trace n t w Hbs)
      as (r & w' & Hrun & Htr & Hbs' & Hck & _).
    rewrite Hrun. cbn [world_of].
    rewrite IH.
    + rewrite Htr, Hbs'. unfold flushExpected.
      assert (Hstale : (clock w (clockReads w) - t <? 25 * Second) = false).
      { apply Z.ltb_ge, Hold. left. reflexivity. }
      rewrite Hstale, orb_false_r.
      destruct (n mod batchSize w =? 0); cbn [map];
        rewrite <- app_assoc; reflexivity.
    + congruence.
    + intros k t' Hin. rewrite Hck. apply Hold. right. exact Hin.
Qed.

Lemma map_fst_combine {A B : Type} (l : list A) (l' : list B) :
  List.length l = List.length l' -> map fst (combine l l') = l.
Proof.
  revert l'. induction l as [ | a l IH]; intros [ | b l'] Hlen;
    cbn in *; try discriminate; [ reflexivity | ].
  f_equal. apply IH. congruence.
Qed.

Lemma map_snd_combine_In {A B : Type} (l : list A) (l' : list B) (b : B) :
  In b (map snd (combine l l')) -> In b l'.
Proof.
  revert l'. induction l as [ | a l IH]; intros [ | b' l'] Hin;
    cbn in *; try contradiction.
  destruct Hin as [ -> | Hin]; [ left; reflexivity | right; auto ].
Qed.

(** C3.  With a batch size that is not zero, [FlushIfNeeded] issues a
    flush if and only if the block number is a multiple of the batch size
    or the block's age, the current time less its timestamp, is under 25
    seconds; it issues one flush then and none otherwise.  In particular,
    with batch size 100 and blocks 1 to 250 whose timestamps are all at
    least 25 seconds old, the flushes are those of blocks 100 and 200,
    whatever the Commit Target answers. *)
Theorem FlushIfNeeded_flushes_iff blockNum blockTime w (times : list Time) :
  batchSize w <> 0 ->
  let w' := world_of (FlushIfNeeded blockNum blockTime w) in
  (In (EvFlush blockNum) (eventsSince w w')
   <-> blockNum mod batchSize w = 0
       \/ clock w (clockReads w) - blockTime < 25 * Second)
  /\ trace w'
     = trace w ++ (if flushExpected blockNum blockTime w
                   then [EvFlush blockNum] else [])
  /\ (batchSize w = 100 ->
      List.length times = 250%nat ->
      (forall (k : nat) t, In t times -> 25 * Second <= clock w k - t) ->
      flushedAt (eventsSince w (flushEach (combine oneTo250 times) w))
      = [100; 200]).
Proof.
  intros Hbs w'. subst w'.
  destruct (FlushIfNeeded_trace blockNum blockTime w Hbs)
    as (r & w' & Hrun & Htr & _).
  rewrite Hrun. cbn [world_of]. split; [ | split ].
  - rewrite (eventsSince_app _ _ _ Htr). unfold flushExpected.
    destruct (Z.eqb_spec (blockNum mod batchSize w) 0) as [Hmul | Hmul];
      cbn [orb].
    + split; [ auto | intros _; left; reflexivity ].
    + destruct (Z.ltb_spec (clock w (clockReads w) - blockTime)
                  (25 * Second)) as [Hfresh | Hstale].
      * split; [ auto | intros _; left; reflexivity ].
      * split; [ intros [] | intros [? | ?]; [ contradiction | lia ] ].
  - exact Htr.
  - intros Hbatch Hlen Hold.
    assert (Hlen' : List.length oneTo250 = List.length times).
    { rewrite Hlen. reflexivity. }
    rewrite (eventsSince_app _ _ _
               (flushEach_trace (combine oneTo250 times) w Hbs
                  (fun k t Hin =>
                     Hold k t (map_snd_combine_In _ _ _ Hin)))).
    rewrite flushedAt_flushes, (map_fst_combine _ _ Hlen'), Hbatch.
    vm_compute. reflexivity.
Qed.

(** ** Which deliveries write *)

Lemma no_commit_call_no_write (evs : list Event) :
  filter isCommitCall evs = [] ->
  filter isPutBlock evs = [] /\ filter isWrite evs = [].
Proof.
  induction evs as [ | [b | b | n | e | e] evs IH]; cbn;
    intros H; try discriminate; auto.
Qed.

Lemma filter_isPutBlock_finalize (blocks : list Block) :
  filter isPutBlock (map EvUpdateNowIrreversibleBlock blocks) = [].
Proof. induction blocks; cbn; auto. Qed.

Lemma FullJob_not_New_puts blockNum block fObj w :
  Step fObj <> StepNew ->
  filter isPutBlock (trace (world_of (FullJob blockNum block fObj w)))
  = filter isPutBlock (trace w).
Proof.
  intros Hnot. destruct (Step fObj) as [ | | bits] eqn:Hstep;
    [ contradiction | | unfold FullJob; rewrite Hstep; reflexivity ].
  rewrite (FullJob_Irreversible _ _ _ _ Hstep).
  destruct (stopBlockReached blockNum fObj w).
  - rewrite DoFlush_eq.
    destruct (Flush (db w)) as [[e | ] d]; cbn [world_of];
      match goal with
      | |- context [Shutdown ?err ?w1] =>
          destruct (Shutdown_trace err w1) as (evs & Htr & Hevs & _);
          rewrite Htr; fields;
          destruct (no_commit_call_no_write evs Hevs) as [Hput _];
          rewrite !filter_app; cbn; rewrite Hput, !app_nil_r; reflexivity
      end.
  - destruct (negb (StepIndex fObj =? 0)); [ reflexivity | ].
    destruct (UpdateIrreversibleData_run (StepBlocks fObj) w)
      as (w1 & Hrun & Htr & _).
    rewrite Hrun.
    destruct (firstFailure (finalizeAnswers (StepBlocks fObj) (db w)));
      cbn [world_of].
    + rewrite Htr, filter_app, filter_isPutBlock_finalize.
      apply app_nil_r.
    + destruct (FlushIfNeeded_calls blockNum (MustTime block) w1)
        as ([[H1 _] | [H1 _]] & _); cbv zeta in H1; rewrite H1, Htr;
        rewrite !filter_app, filter_isPutBlock_finalize; cbn;
        rewrite ?app_nil_r; reflexivity.
Qed.

(** The calls of the flush controller at the end of a New delivery. *)
Lemma closing_flush blockNum blockTime w1 (pre : list Event) w :
  trace w1 = trace w ++ pre ->
  exists evs,
    trace (world_of
             (match FlushIfNeeded blockNum blockTime w1 with
              | Returned r w' => Returned r (gaugesSet blockNum blockTime w')
              | Panicked p w' => Panicked p (gaugesSet blockNum blockTime w')
              end))
    = trace w ++ pre ++ evs
    /\ filter isWrite evs = [].
Proof.
  intros Hpre.
  destruct (FlushIfNeeded_calls blockNum blockTime w1)
    as ([[H1 _] | [H1 _]] & _); cbv zeta in H1;
    destruct (FlushIfNeeded blockNum blockTime w1) as [r w' | p w'];
    cbn [world_of] in *; fields; rewrite H1, Hpre;
    [ exists [] | exists [] | exists [EvFlush blockNum]
    | exists [EvFlush blockNum] ];
    rewrite <- ?app_assoc, ?app_nil_r; split; reflexivity.
Qed.

(** C4, as the code has it.  Every New delivery under [FullJob] whose
    block number is the first streamable block, and no other delivery,
    writes the Genesis Sentinel: [PutBlock] of the sentinel is its first
    call on the Commit Target; refused, the delivery ends there with the
    error wrapped as "store genesis block"; accepted, the sentinel is
    finalized next; refused, the delivery ends there with the error
    wrapped as "set genesis block irreversible"; accepted, the block's own
    [PutBlock] follows and no further write.  A New delivery of another
    number starts with the block's own [PutBlock] and makes no other
    write; a delivery that is not New calls no [PutBlock]. *)
Theorem genesis_sentinel_with_each_first_block blockNum block fObj w :
  let g := genesisBlockOf block in
  let w' := world_of (FullJob blockNum block fObj w) in
  (Step fObj = StepNew ->
   blockNum = GetProtocolFirstStreamableBlock ->
   match PutBlock g (db w) with
   | (Some e, _) =>
       FullJob blockNum block fObj w
       = Returned (Some (Errorf_w "store genesis block: " e)) w'
       /\ trace w' = trace w ++ [EvPutBlock g]
   | (None, d1) =>
       match UpdateNowIrreversibleBlock g d1 with
       | (Some e, _) =>
           FullJob blockNum block fObj w
           = Returned
               (Some (Errorf_w "set genesis block irreversible: " e)) w'
           /\ trace w'
              = trace w ++ [EvPutBlock g; EvUpdateNowIrreversibleBlock g]
       | (None, _) =>
           exists evs,
             trace w'
             = trace w
               ++ [EvPutBlock g; EvUpdateNowIrreversibleBlock g;
                   EvPutBlock block] ++ evs
             /\ filter isWrite evs = []
       end
   end)
  /\ (Step fObj = StepNew ->
      blockNum <> GetProtocolFirstStreamableBlock ->
      exists evs,
        trace w' = trace w ++ [EvPutBlock block] ++ evs
        /\ filter isWrite evs = [])
  /\ (Step fObj <> StepNew ->
      filter isPutBlock (trace w') = filter isPutBlock (trace w)).
Proof.
  intros g w'. subst g w'. split; [ | split ].
  - intros Hstep Hnum. apply Z.eqb_eq in Hnum.
    open_new Hstep blockNum w; [ | congruence ].
    destruct (PutBlock (genesisBlockOf block) (db w)) as [[e | ] d1];
      next_call; [ split; reflexivity | ].
    destruct (UpdateNowIrreversibleBlock (genesisBlockOf block) d1)
      as [[e | ] d2];
      next_call; [ rewrite <- app_assoc; split; reflexivity | ].
    destruct (PutBlock block d2) as [[e | ] d3]; next_call.
    + exists []. rewrite <- !app_assoc. split; reflexivity.
    + apply closing_flush. fields. rewrite Htr, <- !app_assoc.
      reflexivity.
  - intros Hstep Hnum. apply Z.eqb_neq in Hnum.
    open_new Hstep blockNum w; [ congruence | ].
    destruct (PutBlock block (db w)) as [[e | ] d3]; next_call.
    + exists []. split; reflexivity.
    + apply closing_flush. fields. rewrite Htr. reflexivity.
  - apply FullJob_not_New_puts.
Qed.

(** ** Health *)

Lemma shutdownFrom_health (who : Party) (err : option error) w :
  healthy w = true ->
  healthy (shutdownFrom 3 who err w) = false ->
  launched w = true /\ srcTerminating w = false
  /\ srcTerminated (shutdownFrom 3 who err w) = true.
Proof.
  destruct w as [d bsz ltb ltt eb h pj [tg td se] src la hbn hbt ck cr tr].
  destruct who, tg, la, src as [[[ | ] std sse] | ], h; lazy;
    intros H1 H2; try discriminate; repeat split.
Qed.

Lemma Shutdown_unhealthy (err : option error) w (s : Shutter) :
  launched w = true -> IsTerminating w = false ->
  source w = Some s -> isTerminating s = false ->
  healthy (Shutdown err w) = false
  /\ srcTerminated (Shutdown err w) = true.
Proof.
  destruct w as [d bsz ltb ltt eb h pj [tg td se] src la hbn hbt ck cr tr].
  destruct s as [stg std sse]. unfold IsTerminating at 1.
  cbn [launched shutter source isTerminating].
  intros -> -> -> ->. destruct h; lazy; split; reflexivity.
Qed.

Lemma FullJob_New_healthy blockNum block fObj w :
  Step fObj = StepNew ->
  healthy (world_of (FullJob blockNum block fObj w)) = true.
Proof.
  intros Hstep.
  pose proof (entered_healthy blockNum w) as Hh.
  assert (Hend : forall w1,
    healthy w1 = true ->
    healthy (world_of
      (match FlushIfNeeded blockNum (MustTime block) w1 with
       | Returned r w' => Returned r (gaugesSet blockNum (MustTime block) w')
       | Panicked p w' => Panicked p (gaugesSet blockNum (MustTime block) w')
       end)) = true).
  { intros w1 H1.
    destruct (FlushIfNeeded_calls blockNum (MustTime block) w1)
      as (_ & _ & _ & H).
    cbv zeta in H.
    destruct (FlushIfNeeded blockNum (MustTime block) w1);
      cbn [world_of] in *; fields; congruence. }
  open_new Hstep blockNum w.
  - destruct (PutBlock (genesisBlockOf block) (db w)) as [[e | ] d1];
      next_call; [ exact Hh | ].
    destruct (UpdateNowIrreversibleBlock (genesisBlockOf block) d1)
      as [[e | ] d2];
      next_call; [ exact Hh | ].
    destruct (PutBlock block d2) as [[e | ] d3]; next_call;
      [ exact Hh | ].
    apply Hend. exact Hh.
  - destruct (PutBlock block (db w)) as [[e | ] d3]; next_call;
      [ exact Hh | ].
    apply Hend. exact Hh.
Qed.

Lemma Shutdown_health_after (err : option error) w w1 :
  healthy w1 = healthy w -> launched w1 = launched w ->
  source w1 = source w ->
  healthy w = true -> healthy (Shutdown err w1) = false ->
  launched w = true /\ srcTerminating w = false
  /\ srcTerminated (Shutdown err w1) = true.
Proof.
  intros Hh Hl Hs Hbefore Hafter.
  rewrite <- Hh in Hbefore.
  destruct (shutdownFrom_health TheLoader err w1 Hbefore Hafter)
    as (H1 & H2 & H3).
  unfold srcTerminating in *. rewrite <- Hl, <- Hs. auto.
Qed.

Lemma FullJob_health blockNum block fObj w :
  healthy w = true ->
  healthy (world_of (FullJob blockNum block fObj w)) = false ->
  launched w = true /\ srcTerminating w = false
  /\ srcTerminated (world_of (FullJob blockNum block fObj w)) = true.
Proof.
  intros Hbefore.
  destruct (Step fObj) as [ | | bits] eqn:Hstep.
  - rewrite (FullJob_New_healthy _ _ _ _ Hstep). discriminate.
  - rewrite (FullJob_Irreversible _ _ _ _ Hstep).
    destruct (stopBlockReached blockNum fObj w).
    + destruct (DoFlush_returns blockNum w)
        as (r & w1 & -> & _ & _ & Hs & Hh & Hl & _).
      destruct r as [e | ]; cbn [world_of];
        apply Shutdown_health_after; assumption.
    + destruct (negb (StepIndex fObj =? 0)); cbn [world_of];
        [ congruence | ].
      destruct (UpdateIrreversibleData_run (StepBlocks fObj) w)
        as (w1 & -> & _ & _ & _ & _ & _ & Hh & _).
      destruct (firstFailure _); cbn [world_of]; [ congruence | ].
      destruct (FlushIfNeeded_calls blockNum (MustTime block) w1)
        as (_ & _ & _ & H).
      cbv zeta in H. congruence.
  - unfold FullJob. rewrite Hstep. cbn [world_of ret]. congruence.
Qed.

Lemma PatchJob_health blockNum blk fObj w :
  healthy w = true ->
  healthy (world_of (PatchJob blockNum blk fObj w)) = false ->
  launched w = true /\ srcTerminating w = false
  /\ srcTerminated (world_of (PatchJob blockNum blk fObj w)) = true.
Proof.
  intros Hbefore.
  destruct (Step fObj) as [ | | bits] eqn:Hstep.
  - rewrite (PatchJob_New _ _ _ _ Hstep).
    destruct (ShowProgress_returns blockNum w) as (w0 & -> & _ & Hh).
    cbn [world_of].
    destruct (FlushIfNeeded_calls blockNum (MustTime blk) w0)
      as (_ & _ & _ & H).
    cbv zeta in H. congruence.
  - rewrite (PatchJob_Irreversible _ _ _ _ Hstep).
    destruct (stopBlockReached blockNum fObj w);
      [ | cbn [world_of]; congruence ].
    destruct (DoFlush_returns blockNum w)
      as (r & w1 & -> & _ & _ & Hs & Hh & Hl & _).
    destruct r as [e | ]; cbn [world_of]; [ congruence | ].
    apply Shutdown_health_after; assumption.
  - unfold PatchJob. rewrite Hstep. cbn [world_of ret]. congruence.
Qed.

(** C5, as the code has it.  The health flag is false in a new loader and
    true after every New delivery handled by [FullJob], whether or not the
    delivery succeeded.  Whatever happens to a loader next, the flag goes
    from true to false only in a launched loader and only as the source,
    not shutting down before, terminates: that is the case when the source
    ends by itself, and as much when the loader shuts it down, as on the
    clean completion of the stop-block cutoff, after which the flag is
    false. *)
Theorem health_flag_lifecycle w :
  (forall (bsz : Z) (d : DB) (now : nat -> Time),
     Healthy (NewBigtableLoader bsz d now) = false)
  /\ (forall blockNum block fObj,
        Step fObj = StepNew ->
        Healthy (world_of (FullJob blockNum block fObj w)) = true)
  /\ (forall ev : SourceEvent,
        Healthy w = true -> Healthy (handle ev w) = false ->
        launched w = true /\ srcTerminating w = false
        /\ srcTerminated (handle ev w) = true)
  /\ (forall blockNum block fObj (s : Shutter),
        Step fObj = StepIrreversible ->
        endBlock w <> 0 -> endBlock w <= blockNum ->
        int_ok (StepCount fObj) -> StepIndex fObj + 1 = StepCount fObj ->
        fst (Flush (db w)) = None ->
        launched w = true -> IsTerminating w = false ->
        source w = Some s -> isTerminating s = false ->
        exists w',
          FullJob blockNum block fObj w = Returned None w'
          /\ Healthy w' = false /\ srcTerminated w' = true
          /\ shutterErr (shutter w') = None).
Proof.
  unfold Healthy. split; [ reflexivity | ]. split; [ | split ].
  - intros blockNum block fObj Hstep.
    apply FullJob_New_healthy. exact Hstep.
  - intros [blk obj | err | err] Hbefore Hafter; cbn [handle] in *.
    + unfold ProcessBlock in *.
      destruct (IsTerminating w); cbn [world_of] in *; [ congruence | ].
      destruct (processingJob w); cbn [runJob] in *.
      * apply FullJob_health; assumption.
      * apply PatchJob_health; assumption.
    + apply shutdownFrom_health; assumption.
    + apply shutdownFrom_health; assumption.
  - intros blockNum block fObj s Hstep Hset Hreach Hok Hlast Hflush
      Hl Hrun Hsrc Hs.
    destruct (FullJob_stop_block_cutoff_eq blockNum block fObj w
                Hstep Hset Hreach Hok Hlast) as (_ & Hclean).
    exists (Shutdown None (afterFlush blockNum w)).
    split; [ apply Hclean, Hflush | ].
    destruct (Shutdown_unhealthy None (afterFlush blockNum w) s)
      as (H1 & H2); try assumption.
    split; [ exact H1 | ]. split; [ exact H2 | ].
    apply Shutdown_records. exact Hrun.
Qed.


(** ** Relations every step of a computation keeps *)

Lemma preserves_ret {A : Type} (P : World DB -> World DB -> Prop) (a : A) :
  (forall w, P w w) -> preserves P (ret a).
Proof. intros Hrefl w. apply Hrefl. Qed.

Lemma preserves_modify (P : World DB -> World DB -> Prop)
    (f : World DB -> World DB) :
  (forall w, P w (f w)) -> preserves P (modify f).
Proof. intros Hf w. apply Hf. Qed.

Lemma preserves_bind {A B : Type} (P : World DB -> World DB -> Prop)
    (m : M DB A) (k : A -> M DB B) :
  (forall w1 w2 w3, P w1 w2 -> P w2 w3 -> P w1 w3) ->
  preserves P m -> (forall a, preserves P (k a)) ->
  preserves P (bind m k).
Proof.
  intros Htrans Hm Hk w. unfold bind. specialize (Hm w).
  destruct (m w) as [a w1 | p w1]; cbn [world_of] in *.
  - eapply Htrans; [ exact Hm | apply Hk ].
  - exact Hm.
Qed.

Lemma preserves_check (P : World DB -> World DB -> Prop)
    (call : M DB (option error)) (wrap : error -> error)
    (next : M DB (option error)) :
  (forall w, P w w) ->
  (forall w1 w2 w3, P w1 w2 -> P w2 w3 -> P w1 w3) ->
  preserves P call -> preserves P next ->
  preserves P (check call wrap next).
Proof.
  intros Hrefl Htrans Hcall Hnext. unfold check.
  apply preserves_bind; [ exact Htrans | exact Hcall | ].
  intros [e | ]; [ apply preserves_ret, Hrefl | exact Hnext ].
Qed.

Lemma preserves_defer {A : Type} (P : World DB -> World DB -> Prop)
    (d : World DB -> World DB) (body : M DB A) :
  (forall w1 w2 w3, P w1 w2 -> P w2 w3 -> P w1 w3) ->
  (forall w, P w (d w)) -> preserves P body ->
  preserves P (defer d body).
Proof.
  intros Htrans Hd Hbody w. unfold defer. specialize (Hbody w).
  destruct (body w) as [a w1 | p w1]; cbn [world_of] in *;
    (eapply Htrans; [ exact Hbody | apply Hd ]).
Qed.

(** A relation that is reflexive, transitive and kept by every primitive
    step of the loader is kept by the jobs and by whatever happens to a
    launched loader. *)
Section Kept.

Variable P : World DB -> World DB -> Prop.

Hypothesis P_refl : forall w, P w w.
Hypothesis P_trans : forall w1 w2 w3, P w1 w2 -> P w2 w3 -> P w1 w3.
Hypothesis P_clock : forall w, P w (set_clockReads (S (clockReads w)) w).
Hypothesis P_progress : forall blockNum, preserves P (ShowProgress blockNum).
Hypothesis P_gauge : forall n w, P w (metrics_HeadBlockNumber_SetUint64 n w).
Hypothesis P_flush : forall n, preserves P (db_Flush n).

Lemma kept_DoFlush blockNum : preserves P (DoFlush blockNum).
Proof.
  unfold DoFlush. apply preserves_check; auto using preserves_ret.
Qed.

Lemma kept_FlushIfNeeded blockNum blockTime :
  preserves P (FlushIfNeeded blockNum blockTime).
Proof.
  unfold FlushIfNeeded. apply preserves_bind; [ exact P_trans | | ].
  - intros w. unfold flushDue.
    destruct (uint64_rem blockNum (batchSize w)) as [r | ];
      [ | apply P_refl ].
    destruct (r =? 0); [ apply P_refl | ].
    unfold time_Since, time_Now, bind, ret. cbn [world_of].
    apply P_clock.
  - intros [ | ]; [ | apply preserves_ret, P_refl ].
    apply preserves_check; auto using kept_DoFlush.
    apply preserves_bind; auto using preserves_modify, preserves_ret.
Qed.

(** Off the stop-block cutoff, [PatchJob] is made of these steps only. *)
Lemma kept_PatchJob_off_cutoff blockNum blk fObj w :
  (Step fObj = StepIrreversible
   /\ stopBlockReached blockNum fObj w = true)
  \/ P w (world_of (PatchJob blockNum blk fObj w)).
Proof.
  unfold PatchJob. destruct (Step fObj).
  - right. revert w.
    apply preserves_bind; auto using kept_FlushIfNeeded.
  - destruct (stopBlockReached blockNum fObj w);
      [ left; split; reflexivity | right; apply P_refl ].
  - right. apply P_refl.
Qed.

Hypothesis P_healthy : forall w, P w (setHealthy w).
Hypothesis P_drift :
  forall t w, P w (metrics_HeadBlockTimeDrift_SetBlockTime t w).
Hypothesis P_put : forall b, preserves P (db_PutBlock b).
Hypothesis P_finalize :
  forall b, preserves P (db_UpdateNowIrreversibleBlock b).

Lemma kept_UpdateIrreversibleData (blocks : list Block) :
  preserves P (UpdateIrreversibleData blocks).
Proof.
  induction blocks as [ | b rest IH]; cbn [UpdateIrreversibleData].
  - apply preserves_ret, P_refl.
  - apply preserves_check; auto.
Qed.

(** Off the stop-block cutoff, so is [FullJob]. *)
Lemma kept_FullJob_off_cutoff blockNum block fObj w :
  (Step fObj = StepIrreversible
   /\ stopBlockReached blockNum fObj w = true)
  \/ P w (world_of (FullJob blockNum block fObj w)).
Proof.
  unfold FullJob. destruct (Step fObj).
  - right. revert w.
    apply preserves_bind; [ exact P_trans | apply P_progress | intros _ ].
    apply preserves_bind;
      [ exact P_trans | apply preserves_modify, P_healthy | intros _ ].
    apply preserves_defer; [ exact P_trans | apply P_drift | ].
    apply preserves_defer; [ exact P_trans | apply P_gauge | ].
    cbv zeta.
    destruct (blockNum =? GetProtocolFirstStreamableBlock);
      repeat (apply preserves_check; auto using kept_FlushIfNeeded).
  - destruct (stopBlockReached blockNum fObj w);
      [ left; split; reflexivity | right ].
    destruct (negb (StepIndex fObj =? 0)); [ apply P_refl | ].
    revert w.
    apply preserves_check;
      auto using kept_UpdateIrreversibleData.
    apply preserves_check;
      auto using kept_FlushIfNeeded, preserves_ret.
  - right. apply P_refl.
Qed.

(** At the cutoff both jobs flush and may call [Shutdown]. *)
Hypothesis P_shutdown : forall err w, P w (Shutdown err w).

Lemma kept_PatchJob blockNum blk fObj :
  preserves P (PatchJob blockNum blk fObj).
Proof.
  intros w.
  destruct (kept_PatchJob_off_cutoff blockNum blk fObj w)
    as [[Hstep Hcut] | Hoff]; [ | exact Hoff ].
  unfold PatchJob. rewrite Hstep, Hcut. clear Hcut. revert w.
  apply preserves_check; auto using kept_DoFlush.
  apply preserves_bind; auto using preserves_modify, preserves_ret.
Qed.

Lemma kept_FullJob blockNum block fObj :
  preserves P (FullJob blockNum block fObj).
Proof.
  intros w.
  destruct (kept_FullJob_off_cutoff blockNum block fObj w)
    as [[Hstep Hcut] | Hoff]; [ | exact Hoff ].
  unfold FullJob. rewrite Hstep, Hcut. clear Hcut. revert w.
  apply preserves_bind; [ exact P_trans | apply kept_DoFlush | ].
  intros [e | ];
    (apply preserves_bind;
     [ exact P_trans | apply preserves_modify, P_shutdown
     | intros _; apply preserves_ret, P_refl ]).
Qed.

Lemma kept_ProcessBlock blk obj : preserves P (ProcessBlock blk obj).
Proof.
  intros w. unfold ProcessBlock.
  destruct (IsTerminating w); [ apply P_refl | ].
  destruct (processingJob w); cbn [runJob];
    [ apply kept_FullJob | apply kept_PatchJob ].
Qed.

Hypothesis P_source : forall err w, P w (source_Shutdown err w).

Lemma kept_handle (ev : SourceEvent) w : P w (handle ev w).
Proof.
  destruct ev as [blk obj | err | err]; cbn [handle].
  - apply kept_ProcessBlock.
  - apply P_source.
  - apply P_shutdown.
Qed.

Lemma kept_handleAll (evs : list SourceEvent) w : P w (handleAll evs w).
Proof.
  unfold handleAll. revert w.
  induction evs as [ | ev evs IH]; intros w; cbn [fold_left].
  - apply P_refl.
  - eapply P_trans; [ apply kept_handle | apply IH ].
Qed.

End Kept.

(** ** What no step changes *)

Ltac shutter_cases w :=
  destruct w as [d bsz ltb ltt eb h pj [tg td se] src la hbn hbt ck cr tr];
  destruct tg, la, src as [[[ | ] std sse] | ], h.

Lemma sameConfig_refl w : sameConfig w w.
Proof. repeat split. Qed.

Lemma sameConfig_trans w1 w2 w3 :
  sameConfig w1 w2 -> sameConfig w2 w3 -> sameConfig w1 w3.
Proof.
  unfold sameConfig. intros (? & ? & ? & ? & ?) (? & ? & ? & ? & ?).
  repeat split; congruence.
Qed.

Lemma sameConfig_ShowProgress blockNum :
  preserves (@sameConfig DB) (ShowProgress blockNum).
Proof.
  intros w. unfold ShowProgress, bind, time_Now.
  match goal with |- context [if ?c then _ else _] => destruct c end;
    repeat split.
Qed.

Lemma sameConfig_shutdownFrom (who : Party) (err : option error) w :
  sameConfig w (shutdownFrom 3 who err w).
Proof. destruct who; shutter_cases w; lazy; repeat split. Qed.

Lemma sameConfig_handleAll (evs : list SourceEvent) w :
  sameConfig w (handleAll evs w).
Proof.
  apply kept_handleAll;
    try (intros; apply sameConfig_shutdownFrom);
    try exact sameConfig_refl; try exact sameConfig_trans;
    try exact sameConfig_ShowProgress;
    try (intros; repeat split; fail).
  - intros n w0. unfold db_Flush.
    destruct (Flush (db w0)); repeat split.
  - intros w0. unfold setHealthy. destruct (healthy w0); repeat split.
  - intros b w0. unfold db_PutBlock.
    destruct (PutBlock b (db w0)); repeat split.
  - intros b w0. unfold db_UpdateNowIrreversibleBlock.
    destruct (UpdateNowIrreversibleBlock b (db w0)); repeat split.
Qed.

(** X10.  Nothing that happens to a loader changes what was configured:
    after any sequence of deliveries, source terminations and shutdown
    requests, under either job and whatever the Commit Target answers,
    the batch size, the stop-block, the job and the clock are those it
    started with. *)
Theorem configuration_is_kept (evs : list SourceEvent) w :
  batchSize (handleAll evs w) = batchSize w
  /\ endBlock (handleAll evs w) = endBlock w
  /\ processingJob (handleAll evs w) = processingJob w
  /\ launched (handleAll evs w) = launched w
  /\ clock (handleAll evs w) = clock w.
Proof. exact (sameConfig_handleAll evs w). Qed.

(** ** After shutdown *)

Lemma quiet_refl w : quiet w w.
Proof.
  split; [ reflexivity | ]. exists []. split; [ | reflexivity ].
  unfold extendedBy. symmetry. apply app_nil_r.
Qed.

Lemma quiet_trans w1 w2 w3 : quiet w1 w2 -> quiet w2 w3 -> quiet w1 w3.
Proof.
  intros (Hdb1 & evs1 & Htr1 & Hq1) (Hdb2 & evs2 & Htr2 & Hq2).
  split; [ congruence | ]. exists (evs1 ++ evs2). split.
  - unfold extendedBy in *. rewrite Htr2, Htr1, app_assoc. reflexivity.
  - rewrite filter_app, Hq1, Hq2. reflexivity.
Qed.

Lemma quiet_shutdownFrom (who : Party) (err : option error) w :
  quiet w (shutdownFrom 3 who err w).
Proof.
  destruct who; shutter_cases w; lazy -[app];
    (split; [ reflexivity | ]); rewrite <- ?app_assoc; lazy -[app];
    first
      [ exists []; split; [ symmetry; apply app_nil_r | reflexivity ]
      | eexists; split; reflexivity ].
Qed.

Lemma terminating_shutdownFrom (who : Party) (err : option error) w :
  IsTerminating w = true ->
  IsTerminating (shutdownFrom 3 who err w) = true.
Proof.
  destruct who; shutter_cases w; lazy; intros H;
    first [ reflexivity | discriminate H ].
Qed.

Lemma handle_terminating (ev : SourceEvent) w :
  IsTerminating w = true ->
  IsTerminating (handle ev w) = true /\ quiet w (handle ev w).
Proof.
  intros Hterm. destruct ev as [blk obj | err | err]; cbn [handle].
  - unfold ProcessBlock. rewrite Hterm. cbn [world_of].
    split; [ exact Hterm | apply quiet_refl ].
  - split; [ apply terminating_shutdownFrom, Hterm
           | apply quiet_shutdownFrom ].
  - split; [ apply terminating_shutdownFrom, Hterm
           | apply quiet_shutdownFrom ].
Qed.

(** X1.  A loader that is shutting down stays so and leaves the Commit
    Target alone: whatever is delivered to it afterwards and however
    often the source ends or a shutdown is requested again, the database
    is the one it had and no [PutBlock], [UpdateNowIrreversibleBlock] or
    [Flush] is added to the calls made. *)
Theorem terminating_loader_is_inert (evs : list SourceEvent) w :
  IsTerminating w = true ->
  IsTerminating (handleAll evs w) = true
  /\ db (handleAll evs w) = db w
  /\ filter isCommitCall (trace (handleAll evs w))
     = filter isCommitCall (trace w).
Proof.
  intros Hterm.
  assert (H : IsTerminating (handleAll evs w) = true
              /\ quiet w (handleAll evs w)).
  { unfold handleAll. revert w Hterm.
    induction evs as [ | ev evs IH]; intros w Hterm; cbn [fold_left].
    - split; [ exact Hterm | apply quiet_refl ].
    - destruct (handle_terminating ev w Hterm) as (Hterm' & Hq).
      destruct (IH _ Hterm') as (Hend & Hq').
      split; [ exact Hend | eapply quiet_trans; eassumption ]. }
  destruct H as (Hend & Hdb & tr & Htr & Hq).
  split; [ exact Hend | ]. split; [ exact Hdb | ].
  unfold extendedBy in Htr. rewrite Htr, filter_app, Hq.
  apply app_nil_r.
Qed.

(** X2.  A job shuts the loader down at the stop-block cutoff and nowhere
    else: if the loader was not shutting down before a delivery and is
    after it, the delivery was an Irreversible one, a stop-block was set,
    the block number had reached it and the delivery was the last of its
    group.  A refused write or a failed flush elsewhere is returned and
    leaves the shutter as it was. *)
Theorem only_the_cutoff_shuts_the_loader_down
    (j : JobKind) blockNum blk fObj w :
  IsTerminating w = false ->
  IsTerminating (world_of (runJob j blockNum blk fObj w)) = true ->
  Step fObj = StepIrreversible
  /\ endBlock w <> 0 /\ endBlock w <= blockNum
  /\ StepCount fObj = int_add (StepIndex fObj) 1.
Proof.
  intros Hrun Hstopped.
  assert (Hcases :
    (Step fObj = StepIrreversible
     /\ stopBlockReached blockNum fObj w = true)
    \/ shutter (world_of (runJob j blockNum blk fObj w)) = shutter w).
  { destruct j; cbn [runJob];
      [ apply (kept_FullJob_off_cutoff
                 (fun w w' => shutter w' = shutter w))
      | apply (kept_PatchJob_off_cutoff
                 (fun w w' => shutter w' = shutter w)) ];
      try reflexivity; try (intros; congruence);
      try (intros n w0; first
             [ unfold ShowProgress, bind, time_Now;
               match goal with
               | |- context [if ?c then _ else _] => destruct c
               end; reflexivity
             | unfold db_Flush; destruct (Flush (db w0)); reflexivity
             | unfold db_PutBlock; destruct (PutBlock n (db w0));
               reflexivity
             | unfold db_UpdateNowIrreversibleBlock;
               destruct (UpdateNowIrreversibleBlock n (db w0));
               reflexivity ]);
      try (intros w0; unfold setHealthy; destruct (healthy w0);
           reflexivity). }
  destruct Hcases as [[Hstep Hcut] | Hsame].
  - split; [ exact Hstep | ]. unfold stopBlockReached in Hcut.
    apply andb_true_iff in Hcut. destruct Hcut as [Hcut Hlast].
    apply andb_true_iff in Hcut. destruct Hcut as [Hset Hreach].
    apply negb_true_iff, Z.eqb_neq in Hset.
    apply Z.leb_le in Hreach. apply Z.eqb_eq in Hlast. auto.
  - unfold IsTerminating in *. congruence.
Qed.

(** X3.  After a New delivery under [FullJob] the two head gauges hold the
    number and the time of the delivered block, whether the delivery
    returned nil, returned an error or panicked: they are set on the way
    out. *)
Theorem FullJob_New_sets_the_head_gauges blockNum block fObj w :
  Step fObj = StepNew ->
  HeadBlockNumber (world_of (FullJob blockNum block fObj w)) = blockNum
  /\ HeadBlockTimeDrift (world_of (FullJob blockNum block fObj w))
     = MustTime block.
Proof.
  intros Hstep. rewrite (FullJob_New _ _ _ _ Hstep). cbv zeta.
  match goal with
  | |- context [match ?body with Returned _ _ => _ | Panicked _ _ => _ end]
    => destruct body
  end; split; reflexivity.
Qed.

(** ** What the flush controller answers *)

(** X4.  For a batch size that is not zero [FlushIfNeeded] returns.  When
    a flush is due it asks the Commit Target for one: refused, the error
    is returned wrapped as "flush failed" and the head block number gauge
    keeps its value; accepted, nil is returned and the gauge holds the
    block number.  When none is due it returns nil and leaves database,
    gauge and trace as they were. *)
Theorem FlushIfNeeded_outcome blockNum blockTime w :
  batchSize w <> 0 ->
  exists r w',
    FlushIfNeeded blockNum blockTime w = Returned r w'
    /\ if flushExpected blockNum blockTime w
       then
         db w' = snd (Flush (db w))
         /\ match fst (Flush (db w)) with
            | Some e =>
                r = Some (Errorf_w "flush failed: " e)
                /\ HeadBlockNumber w' = HeadBlockNumber w
            | None => r = None /\ HeadBlockNumber w' = blockNum
            end
       else
         r = None /\ db w' = db w
         /\ HeadBlockNumber w' = HeadBlockNumber w
         /\ trace w' = trace w.
Proof.
  intros Hbs.
  assert (Hdo : forall w0,
    db w0 = db w -> HeadBlockNumber w0 = HeadBlockNumber w ->
    exists r w',
      check (DoFlush blockNum) (fun err => err)
        (bind (modify (metrics_HeadBlockNumber_SetUint64 blockNum))
           (fun _ => ret None)) w0 = Returned r w'
      /\ db w' = snd (Flush (db w))
      /\ match fst (Flush (db w)) with
         | Some e =>
             r = Some (Errorf_w "flush failed: " e)
             /\ HeadBlockNumber w' = HeadBlockNumber w
         | None => r = None /\ HeadBlockNumber w' = blockNum
         end).
  { intros w0 Hdb Hhead. unfold check, bind. rewrite DoFlush_eq, Hdb.
    destruct (Flush (db w)) as [[e | ] d]; eexists; eexists;
      (split; [ reflexivity | ]); cbn [fst snd]; fields; auto. }
  unfold FlushIfNeeded, bind, flushDue, flushExpected, uint64_rem.
  destruct (Z.eqb_spec (batchSize w) 0) as [ | _ ]; [ contradiction | ].
  destruct (blockNum mod batchSize w =? 0); cbn [orb].
  - apply Hdo; reflexivity.
  - cbv beta iota delta [time_Since time_Now bind ret].
    rewrite (Time_Sub_lt _ _ _ staleness_window_in_range).
    destruct (clock w (clockReads w) - blockTime <? 25 * Second).
    + apply Hdo; reflexivity.
    + eexists; eexists. split; [ reflexivity | ]. repeat split.
Qed.

(** X5.  When the Commit Target refuses the block of a New delivery that
    needs no sentinel, [FullJob] returns an error whose text is "store
    block: " followed by the text of the refusal, but which does not wrap
    it: the cause cannot be unwrapped from it.  The refused [PutBlock] is
    the delivery's only call on the Commit Target; no flush follows. *)
Theorem refused_block_is_reported_unwrapped blockNum block fObj w e :
  Step fObj = StepNew ->
  blockNum <> GetProtocolFirstStreamableBlock ->
  fst (PutBlock block (db w)) = Some e ->
  exists err w',
    FullJob blockNum block fObj w = Returned (Some err) w'
    /\ Error err = ("store block: " ++ Error e)%string
    /\ Unwrap err = None
    /\ trace w' = trace w ++ [EvPutBlock block]
    /\ db w' = snd (PutBlock block (db w)).
Proof.
  intros Hstep Hnum Hrefused. apply Z.eqb_neq in Hnum.
  open_new Hstep blockNum w; [ congruence | ].
  destruct (PutBlock block (db w)) as [r d]. cbn [fst snd] in *.
  subst r. next_call.
  eexists; eexists. split; [ reflexivity | ].
  fields. rewrite ?Htr, ?Hdb. repeat split.
Qed.

(** ** Progress ticks *)




(** ** Deliveries that write nothing *)

Lemma writeFree_refl w : writeFree w w.
Proof.
  exists []. split; [ | reflexivity ].
  unfold extendedBy. symmetry. apply app_nil_r.
Qed.

Lemma writeFree_trans w1 w2 w3 :
  writeFree w1 w2 -> writeFree w2 w3 -> writeFree w1 w3.
Proof.
  intros (evs1 & Htr1 & Hq1) (evs2 & Htr2 & Hq2).
  exists (evs1 ++ evs2). split.
  - unfold extendedBy in *. rewrite Htr2, Htr1, app_assoc. reflexivity.
  - rewrite filter_app, Hq1, Hq2. reflexivity.
Qed.

Lemma quiet_writeFree w w' : quiet w w' -> writeFree w w'.
Proof.
  intros (_ & evs & Htr & Hq). exists evs. split; [ exact Htr | ].
  apply no_commit_call_no_write, Hq.
Qed.

Lemma writeFree_same_trace w w' : trace w' = trace w -> writeFree w w'.
Proof.
  intros Htr. exists []. split; [ | reflexivity ].
  unfold extendedBy. rewrite Htr. symmetry. apply app_nil_r.
Qed.

Lemma writeFree_db_Flush blockNum :
  preserves (@writeFree DB) (db_Flush blockNum).
Proof.
  intros w. unfold db_Flush. destruct (Flush (db w)) as [r d].
  exists [EvFlush blockNum]. split; reflexivity.
Qed.

Lemma writeFree_ShowProgress blockNum :
  preserves (@writeFree DB) (ShowProgress blockNum).
Proof.
  intros w. destruct (ShowProgress_returns blockNum w)
    as (w0 & -> & (_ & Htr & _) & _).
  apply writeFree_same_trace, Htr.
Qed.

Lemma writeFree_PatchJob blockNum blk fObj :
  preserves (@writeFree DB) (PatchJob blockNum blk fObj).
Proof.
  apply kept_PatchJob;
    try exact writeFree_refl; try exact writeFree_trans;
    try exact writeFree_ShowProgress; try exact writeFree_db_Flush;
    try (intros; apply writeFree_same_trace; reflexivity).
  intros err w. apply quiet_writeFree, quiet_shutdownFrom.
Qed.

(** A delivery of an Irreversible group other than its first writes
    nothing, under either job, at the cutoff or off it. *)
Lemma later_delivery_writeFree blk obj w :
  Step obj = StepIrreversible -> StepIndex obj <> 0 ->
  writeFree w (handle (Deliver blk obj) w).
Proof.
  intros Hstep Hlater. cbn [handle]. unfold ProcessBlock.
  destruct (IsTerminating w); [ apply writeFree_refl | ].
  destruct (processingJob w); cbn [runJob];
    [ | apply writeFree_PatchJob ].
  rewrite (FullJob_Irreversible _ _ _ _ Hstep).
  apply Z.eqb_neq in Hlater. rewrite Hlater. cbn [negb].
  destruct (stopBlockReached (Number blk) obj w);
    [ | apply writeFree_refl ].
  rewrite DoFlush_eq.
  destruct (Flush (db w)) as [[e | ] d]; cbn [world_of];
    (apply (writeFree_trans _
              (set_db d (log (EvFlush (Number blk)) w)));
     [ exists [EvFlush (Number blk)]; split; reflexivity
     | apply quiet_writeFree, quiet_shutdownFrom ]).
Qed.

Lemma filter_isWrite_finalize (blocks : list Block) :
  filter isWrite (map EvUpdateNowIrreversibleBlock blocks)
  = map EvUpdateNowIrreversibleBlock blocks.
Proof. induction blocks as [ | b rest IH]; cbn; congruence. Qed.

(** The first delivery of a group, off the cutoff, under [FullJob]. *)
Lemma first_delivery_finalizes blk obj w :
  processingJob w = TheFullJob -> IsTerminating w = false ->
  Step obj = StepIrreversible -> StepIndex obj = 0 ->
  stopBlockReached (Number blk) obj w = false ->
  exists evs,
    trace (handle (Deliver blk obj) w)
    = trace w
      ++ map EvUpdateNowIrreversibleBlock
           (throughFirstFailure (StepBlocks obj)
              (finalizeAnswers (StepBlocks obj) (db w)))
      ++ evs
    /\ filter isWrite evs = [].
Proof.
  intros Hjob Hrun Hstep Hfirst Hcut. cbn [handle]. unfold ProcessBlock.
  rewrite Hrun, Hjob. cbn [runJob].
  rewrite (FullJob_Irreversible _ _ _ _ Hstep), Hcut, Hfirst.
  cbn [Z.eqb negb].
  destruct (UpdateIrreversibleData_run (StepBlocks obj) w)
    as (w1 & -> & Htr & _).
  destruct (firstFailure (finalizeAnswers (StepBlocks obj) (db w))).
  - exists []. cbn [world_of]. rewrite Htr, app_nil_r.
    split; reflexivity.
  - destruct (FlushIfNeeded_calls (Number blk) (MustTime blk) w1)
      as ([[H1 _] | [H1 _]] & _); cbv zeta in H1; rewrite H1, Htr.
    + exists []. rewrite app_nil_r. split; reflexivity.
    + exists [EvFlush (Number blk)]. rewrite <- app_assoc.
      split; reflexivity.
Qed.

Lemma later_deliveries_writeFree (evs : list SourceEvent) w :
  Forall (fun ev => exists blk obj,
            ev = Deliver blk obj
            /\ Step obj = StepIrreversible /\ StepIndex obj <> 0) evs ->
  writeFree w (handleAll evs w).
Proof.
  unfold handleAll. intros Hall. revert w.
  induction Hall as [ | ev evs (blk & obj & -> & Hstep & Hlater) _ IH];
    intros w; cbn [fold_left].
  - apply writeFree_refl.
  - apply (writeFree_trans _ (handle (Deliver blk obj) w));
      [ apply later_delivery_writeFree; assumption | apply IH ].
Qed.

Lemma groupDeliveries_later (group : list Block) (k : nat)
    (rest : list Block) :
  Forall (fun ev => exists blk obj,
            ev = Deliver blk obj
            /\ Step obj = StepIrreversible /\ StepIndex obj <> 0)
    (map (fun ib : nat * Block =>
            Deliver (snd ib)
              (mkForkableObject StepIrreversible
                 (Z.of_nat (List.length group)) (Z.of_nat (fst ib)) group))
       (combine (seq (S k) (List.length rest)) rest)).
Proof.
  apply Forall_forall. intros ev Hin.
  apply in_map_iff in Hin. destruct Hin as ([i b] & <- & Hin).
  apply in_combine_l, in_seq in Hin. cbn [fst snd].
  eexists; eexists. split; [ reflexivity | ].
  split; [ reflexivity | ]. cbn [StepIndex]. lia.
Qed.

Lemma groupDeliveries_cons (first : Block) (rest : list Block) :
  groupDeliveries (first :: rest)
  = Deliver first
      (mkForkableObject StepIrreversible
         (Z.of_nat (List.length (first :: rest))) 0 (first :: rest))
    :: map (fun ib : nat * Block =>
              Deliver (snd ib)
                (mkForkableObject StepIrreversible
                   (Z.of_nat (List.length (first :: rest)))
                   (Z.of_nat (fst ib)) (first :: rest)))
         (combine (seq 1 (List.length rest)) rest).
Proof. reflexivity. Qed.

(** X7.  A group is finalized once.  When the fork resolver delivers an
    Irreversible group block by block to a running loader under
    [FullJob], and the first delivery is not the stop-block cutoff, the
    writes made over the whole group are the finalizations the first
    delivery makes, in group order through the first refusal if any: the
    deliveries that follow add no write, whether they are skipped or
    trigger the cutoff. *)
Theorem group_is_finalized_once (first : Block) (rest : list Block) w :
  let group := first :: rest in
  processingJob w = TheFullJob -> IsTerminating w = false ->
  stopBlockReached (Number first)
    (mkForkableObject StepIrreversible (Z.of_nat (List.length group)) 0
       group) w = false ->
  filter isWrite (eventsSince w (handleAll (groupDeliveries group) w))
  = map EvUpdateNowIrreversibleBlock
      (throughFirstFailure group (finalizeAnswers group (db w))).
Proof.
  intros group Hjob Hrun Hcut.
  subst group. rewrite groupDeliveries_cons.
  unfold handleAll. cbn [fold_left].
  match goal with
  | |- context [handle (Deliver first ?obj) w] =>
      destruct (first_delivery_finalizes first obj w Hjob Hrun
                  eq_refl eq_refl Hcut) as (evs & Htr & Hevs);
      destruct (later_deliveries_writeFree _ (handle (Deliver first obj) w)
                  (groupDeliveries_later (first :: rest) 0 rest))
        as (evs' & Htr' & Hevs')
  end.
  unfold handleAll, extendedBy in Htr'. cbn [StepBlocks] in Htr.
  rewrite Htr in Htr'. rewrite <- !app_assoc in Htr'.
  rewrite (eventsSince_app _ _ _ Htr').
  rewrite !filter_app, filter_isWrite_finalize, Hevs, Hevs', !app_nil_r.
  reflexivity.
Qed.

(** ** A patch pipeline *)

Lemma patch_handle (ev : SourceEvent) w :
  processingJob w = ThePatchJob -> writeFree w (handle ev w).
Proof.
  intros Hjob. destruct ev as [blk obj | err | err]; cbn [handle].
  - unfold ProcessBlock.
    destruct (IsTerminating w); [ apply writeFree_refl | ].
    rewrite Hjob. apply writeFree_PatchJob.
  - apply quiet_writeFree, quiet_shutdownFrom.
  - apply quiet_writeFree, quiet_shutdownFrom.
Qed.

Lemma patch_handleAll (evs : list SourceEvent) w :
  processingJob w = ThePatchJob -> writeFree w (handleAll evs w).
Proof.
  revert w. induction evs as [ | ev evs IH]; intros w Hjob.
  - apply writeFree_refl.
  - change (handleAll (ev :: evs) w) with (handleAll evs (handle ev w)).
    eapply writeFree_trans; [ apply patch_handle, Hjob | ].
    apply IH.
    destruct (sameConfig_handleAll [ev] w) as (_ & _ & Hpj & _).
    cbn in Hpj. congruence.
Qed.

(** X8.  A pipeline built by [BuildPipelinePatch] never writes.  Whether
    or not the start block resolved, once it is launched no sequence of
    deliveries, source terminations and shutdown requests makes it call
    [PutBlock] or [UpdateNowIrreversibleBlock]: the writes in the trace
    are those made before the pipeline was built. *)
Theorem patch_pipeline_never_writes (resolved : option error)
    (evs : list SourceEvent) w0 :
  let w := world_of (Launch (BuildPipelinePatch resolved w0)) in
  processingJob w = ThePatchJob
  /\ filter isWrite (trace (handleAll evs w)) = filter isWrite (trace w0).
Proof.
  intros w.
  assert (Hbuilt : processingJob (BuildPipelinePatch resolved w0)
                   = ThePatchJob
                   /\ writeFree w0 (BuildPipelinePatch resolved w0)).
  { unfold BuildPipelinePatch, BuildPipelineJob. destruct resolved as [e | ].
    - split.
      + match goal with
        | |- processingJob (Shutdown ?err ?w1) = _ =>
            destruct (sameConfig_shutdownFrom TheLoader err w1)
              as (_ & _ & Hpj & _); exact Hpj
        end.
      + eapply writeFree_trans;
          [ | apply quiet_writeFree, quiet_shutdownFrom ].
        apply writeFree_same_trace. reflexivity.
    - split; [ reflexivity | apply writeFree_same_trace; reflexivity ]. }
  destruct Hbuilt as (Hjob & Hfree).
  assert (Hlaunched : processingJob w = ThePatchJob
                      /\ writeFree (BuildPipelinePatch resolved w0) w).
  { subst w. unfold Launch.
    destruct (source (BuildPipelinePatch resolved w0)); cbn [world_of];
      (split; [ exact Hjob | apply writeFree_same_trace; reflexivity ]). }
  destruct Hlaunched as (Hjob' & Hfree').
  split; [ exact Hjob' | ].
  destruct (writeFree_trans _ _ _ Hfree
              (writeFree_trans _ _ _ Hfree' (patch_handleAll evs w Hjob')))
    as (tr & Htr & Hq).
  unfold extendedBy in Htr. rewrite Htr, filter_app, Hq.
  apply app_nil_r.
Qed.

(** ** Loader and source, linked *)

(** X12.  [Launch] links loader and source both ways.  In a launched
    loader where neither is shutting down, shutting the loader down with
    an error and the source ending with that error come to the same: both
    shutters are terminated with that error and the health flag is false.
    From then on the first cause stays: a later shutdown of either, with
    whatever error, changes neither shutter. *)
Theorem shutdown_links_loader_and_source
    (err err' : option error) (s : Shutter) w :
  launched w = true -> IsTerminating w = false ->
  source w = Some s -> isTerminating s = false ->
  let linked := fun w' =>
    shutter w' = mkShutter true true err
    /\ source w' = Some (mkShutter true true err)
    /\ healthy w' = false in
  linked (Shutdown err w)
  /\ linked (source_Shutdown err w)
  /\ linked (Shutdown err' (Shutdown err w))
  /\ linked (source_Shutdown err' (Shutdown err w))
  /\ linked (Shutdown err' (source_Shutdown err w))
  /\ linked (source_Shutdown err' (source_Shutdown err w)).
Proof.
  destruct w as [d bsz ltb ltt eb h pj [tg td se] src la hbn hbt ck cr tr].
  destruct s as [stg std sse]. unfold IsTerminating.
  cbn [launched shutter source isTerminating].
  intros -> -> -> ->. destruct h; lazy; repeat split.
Qed.

(** X13.  When the start block of a batch or patch pipeline cannot be
    resolved, [BuildPipelineJob] still records the job, then shuts the
    loader down with the resolver's error wrapped as "unable to resolve
    start block" and builds no source: launching such a loader panics on
    the nil source, and delivering to it does nothing. *)
Theorem unresolved_start_leaves_no_source
    (e : error) (job : JobKind) blk obj w :
  IsTerminating w = false -> source w = None ->
  let w1 := BuildPipelineJob (Some e) job w in
  let cause := Errorf_w "unable to resolve start block: " e in
  processingJob w1 = job
  /\ IsTerminating w1 = true
  /\ shutterErr (shutter w1) = Some cause
  /\ Unwrap cause = Some e
  /\ source w1 = None
  /\ Launch w1 = Panicked NilDereference w1
  /\ ProcessBlock blk obj w1 = Returned None w1.
Proof.
  destruct w as [d bsz ltb ltt eb h pj [tg td se] src la hbn hbt ck cr tr].
  unfold IsTerminating. cbn [shutter source isTerminating].
  intros -> ->. destruct la; lazy; repeat split.
Qed.

(** ** The cutoff and groups of several blocks *)

(** X9.  The first delivery of a group of two or more blocks is never the
    stop-block cutoff, whatever the stop-block: a running loader under
    [FullJob] finalizes the group, in order through the first refusal,
    also where block numbers are at or past the stop-block. *)
Theorem first_of_several_is_finalized_past_the_stop_block
    blockNum block fObj w :
  Step fObj = StepIrreversible ->
  StepIndex fObj = 0 -> StepCount fObj <> 1 ->
  stopBlockReached blockNum fObj w = false
  /\ exists evs,
       trace (world_of (FullJob blockNum block fObj w))
       = trace w
         ++ map EvUpdateNowIrreversibleBlock
              (throughFirstFailure (StepBlocks fObj)
                 (finalizeAnswers (StepBlocks fObj) (db w)))
         ++ evs
       /\ filter isWrite evs = [].
Proof.
  intros Hstep Hfirst Hseveral.
  assert (Hcut : stopBlockReached blockNum fObj w = false).
  { unfold stopBlockReached. rewrite Hfirst.
    replace (int_add 0 1) with 1 by reflexivity.
    apply Z.eqb_neq in Hseveral. rewrite Hseveral.
    apply andb_false_r. }
  split; [ exact Hcut | ].
  rewrite (FullJob_Irreversible _ _ _ _ Hstep), Hcut, Hfirst.
  cbn [Z.eqb negb].
  destruct (UpdateIrreversibleData_run (StepBlocks fObj) w)
    as (w1 & -> & Htr & _).
  destruct (firstFailure (finalizeAnswers (StepBlocks fObj) (db w))).
  - exists []. cbn [world_of]. rewrite Htr, app_nil_r.
    split; reflexivity.
  - destruct (FlushIfNeeded_calls blockNum (MustTime block) w1)
      as ([[H1 _] | [H1 _]] & _); cbv zeta in H1; rewrite H1, Htr.
    + exists []. rewrite app_nil_r. split; reflexivity.
    + exists [EvFlush blockNum]. rewrite <- app_assoc.
      split; reflexivity.
Qed.

(** ** The two jobs and the flush controller *)

Lemma flushedAt_app (evs evs' : list Event) :
  flushedAt (evs ++ evs') = flushedAt evs ++ flushedAt evs'.
Proof.
  induction evs as [ | [b | b | n | e | e] evs IH]; cbn; congruence.
Qed.

Lemma flushExpected_same blockNum blockTime w w' :
  batchSize w' = batchSize w -> clock w' = clock w ->
  clockReads w' = clockReads w ->
  flushExpected blockNum blockTime w' = flushExpected blockNum blockTime w.
Proof. unfold flushExpected. intros -> -> ->. reflexivity. Qed.

Lemma entered_clock blockNum w :
  batchSize (entered blockNum w)
  = batchSize (world_of (ShowProgress blockNum w))
  /\ clock (entered blockNum w) = clock (world_of (ShowProgress blockNum w))
  /\ clockReads (entered blockNum w)
     = clockReads (world_of (ShowProgress blockNum w)).
Proof.
  unfold entered, setHealthy.
  destruct (negb (healthy (world_of (ShowProgress blockNum w))));
    repeat split.
Qed.

(** The flushes at the end of a New delivery under [FullJob], once its
    writes are accepted. *)
Lemma closing_flushes blockNum blockTime w1 w0 :
  batchSize w1 <> 0 ->
  flushExpected blockNum blockTime w1 = flushExpected blockNum blockTime w0 ->
  exists evs,
    trace (world_of
             (match FlushIfNeeded blockNum blockTime w1 with
              | Returned r w' => Returned r (gaugesSet blockNum blockTime w')
              | Panicked p w' => Panicked p (gaugesSet blockNum blockTime w')
              end))
    = trace w1 ++ evs
    /\ flushedAt evs
       = if flushExpected blockNum blockTime w0 then [blockNum] else [].
Proof.
  intros Hbs Hsame.
  destruct (FlushIfNeeded_trace blockNum blockTime w1 Hbs)
    as (r & w' & -> & Htr & _).
  cbn [world_of]. fields. rewrite Htr, Hsame.
  eexists. split; [ reflexivity | ].
  destruct (flushExpected blockNum blockTime w0); reflexivity.
Qed.

(** X11.  On a New delivery the patch job flushes exactly when the full
    job does: for a batch size that is not zero and a Commit Target that
    accepts the full job's writes, the flushes either job issues are the
    same. *)
Theorem PatchJob_flushes_as_FullJob blockNum block fObj w :
  Step fObj = StepNew -> batchSize w <> 0 ->
  accepts (newStepWrites blockNum block) (db w) = true ->
  flushedAt
    (eventsSince w (world_of (FullJob blockNum block fObj w)))
  = flushedAt
      (eventsSince w (world_of (PatchJob blockNum block fObj w))).
Proof.
  intros Hstep Hbatch Haccepts.
  pose (w0 := world_of (ShowProgress blockNum w)).
  assert (H0 : sameTarget w w0).
  { subst w0. destruct (ShowProgress_returns blockNum w)
      as (w1 & -> & H & _). exact H. }
  destruct H0 as (_ & Htr0 & Hbs0 & _).
  destruct (entered_clock blockNum w) as (Eb & Ec & Ek).
  fold w0 in Eb, Ec, Ek.
  assert (Hpatch :
    flushedAt (eventsSince w (world_of (PatchJob blockNum block fObj w)))
    = if flushExpected blockNum (MustTime block) w0
      then [blockNum] else []).
  { rewrite (PatchJob_New _ _ _ _ Hstep). fold w0.
    destruct (FlushIfNeeded_trace blockNum (MustTime block) w0)
      as (r & w' & -> & Htr & _); [ congruence | ].
    cbn [world_of]. rewrite Htr0 in Htr.
    rewrite (eventsSince_app _ _ _ Htr).
    destruct (flushExpected blockNum (MustTime block) w0); reflexivity. }
  rewrite Hpatch. clear Hpatch.
  assert (Hend : forall w1 (pre : list Event),
    batchSize w1 = batchSize (entered blockNum w) ->
    clock w1 = clock (entered blockNum w) ->
    clockReads w1 = clockReads (entered blockNum w) ->
    trace w1 = trace w ++ pre -> flushedAt pre = [] ->
    flushedAt
      (eventsSince w
         (world_of
            (match FlushIfNeeded blockNum (MustTime block) w1 with
             | Returned r w' =>
                 Returned r (gaugesSet blockNum (MustTime block) w')
             | Panicked p w' =>
                 Panicked p (gaugesSet blockNum (MustTime block) w')
             end)))
    = if flushExpected blockNum (MustTime block) w0
      then [blockNum] else []).
  { intros w1 pre H1 H2 H3 Htr Hpre.
    destruct (closing_flushes blockNum (MustTime block) w1 w0)
      as (evs & Hevs & Hfl).
    - congruence.
    - apply flushExpected_same; congruence.
    - rewrite Htr, <- app_assoc in Hevs.
      rewrite (eventsSince_app _ _ _ Hevs), flushedAt_app, Hpre, Hfl.
      reflexivity. }
  revert Haccepts.
  open_new Hstep blockNum w; cbn [accepts answer].
  - destruct (PutBlock (genesisBlockOf block) (db w)) as [[e | ] d1];
      [ discriminate | ]. next_call.
    destruct (UpdateNowIrreversibleBlock (genesisBlockOf block) d1)
      as [[e | ] d2]; [ discriminate | ]. next_call.
    destruct (PutBlock block d2) as [[e | ] d3];
      [ discriminate | ]. next_call. intros _.
    eapply Hend; try reflexivity.
    + fields. rewrite Htr, <- !app_assoc. reflexivity.
    + reflexivity.
  - destruct (PutBlock block (db w)) as [[e | ] d3];
      [ discriminate | ]. next_call. intros _.
    eapply Hend; try reflexivity.
    + fields. rewrite Htr. reflexivity.
    + reflexivity.
Qed.

(** ** Bundle sizes *)

Lemma bundleSizes_spec (sizes acc : list Z) :
  match bundleSizes sizes acc with
  | inr out => out = acc ++ sizes /\ Forall (fun s => 0 <= s) sizes
  | inl e =>
      exists pre neg post,
        sizes = pre ++ neg :: post
        /\ Forall (fun s => 0 <= s) pre /\ neg < 0
        /\ e = Errorf_d "invalid negative size for bundle-sizes: " neg
  end.
Proof.
  revert acc. induction sizes as [ | size rest IH]; intros acc;
    cbn [bundleSizes].
  - rewrite app_nil_r. split; [ reflexivity | constructor ].
  - destruct (Z.ltb_spec size 0) as [Hneg | Hok].
    + exists [], size, rest. repeat split; [ constructor | exact Hneg ].
    + specialize (IH (acc ++ [size])).
      destruct (bundleSizes rest (acc ++ [size])) as [e | out].
      * destruct IH as (pre & neg & post & -> & Hpre & Hneg & ->).
        exists (size :: pre), neg, post.
        repeat split; [ constructor; assumption | exact Hneg ].
      * destruct IH as (-> & Hall). rewrite <- app_assoc.
        split; [ reflexivity | constructor; assumption ].
Qed.

(** X14.  The size lists of the call-index generator are taken whole or
    not at all: when no size is negative the converted list is the list
    given, in order; otherwise the command fails with an error that names
    the first negative size, and no size after it is looked at. *)
Theorem bundle_sizes_all_or_first_negative (sizes : list Z) :
  match bundleSizes sizes [] with
  | inr out => out = sizes /\ Forall (fun s => 0 <= s) sizes
  | inl e =>
      exists pre neg post,
        sizes = pre ++ neg :: post
        /\ Forall (fun s => 0 <= s) pre /\ neg < 0
        /\ e = Errorf_d "invalid negative size for bundle-sizes: " neg
        /\ forall post', bundleSizes (pre ++ neg :: post') [] = inl e
  end.
Proof.
  pose proof (bundleSizes_spec sizes []) as H.
  destruct (bundleSizes sizes []) as [e | out] eqn:Hrun.
  - destruct H as (pre & neg & post & -> & Hpre & Hneg & ->).
    exists pre, neg, post. repeat split; try assumption.
    intros post'. clear Hrun. generalize (@nil Z).
    induction Hpre as [ | s pre Hs _ IH]; intros acc; cbn [app bundleSizes].
    + apply Z.ltb_lt in Hneg. rewrite Hneg. reflexivity.
    + apply Z.ltb_ge in Hs. rewrite Hs. apply IH.
  - exact H.
Qed.

(** ** Health under the patch job *)

Lemma unhealthy_shutdownFrom (who : Party) (err : option error) w :
  healthy w = false -> healthy (shutdownFrom 3 who err w) = false.
Proof.
  destruct who; shutter_cases w; lazy; intros H;
    first [ reflexivity | discriminate H ].
Qed.

Lemma unhealthy_PatchJob blockNum blk fObj :
  preserves (fun w w' : World DB => healthy w = false -> healthy w' = false)
    (PatchJob blockNum blk fObj).
Proof.
  apply kept_PatchJob; try (intros; assumption); auto.
  - intros n w. destruct (ShowProgress_returns n w) as (w0 & -> & _ & Hh).
    cbn [world_of]. congruence.
  - intros n w. unfold db_Flush. destruct (Flush (db w)). auto.
  - intros err w. apply unhealthy_shutdownFrom.
Qed.

Lemma unhealthy_patch_handleAll (evs : list SourceEvent) w :
  processingJob w = ThePatchJob -> healthy w = false ->
  healthy (handleAll evs w) = false.
Proof.
  revert w. induction evs as [ | ev evs IH]; intros w Hjob Hh.
  - exact Hh.
  - change (handleAll (ev :: evs) w) with (handleAll evs (handle ev w)).
    apply IH.
    + destruct (sameConfig_handleAll [ev] w) as (_ & _ & Hpj & _).
      cbn in Hpj. congruence.
    + destruct ev as [blk obj | err | err]; cbn [handle].
      * unfold ProcessBlock. destruct (IsTerminating w); [ exact Hh | ].
        rewrite Hjob. apply unhealthy_PatchJob, Hh.
      * apply unhealthy_shutdownFrom, Hh.
      * apply unhealthy_shutdownFrom, Hh.
Qed.

(** X15.  A patch pipeline never reports healthy.  [PatchJob] does not
    mark the loader healthy, so a loader that is not healthy when
    [BuildPipelinePatch] builds its pipeline has a false health flag after
    any sequence of deliveries, source terminations and shutdown
    requests. *)
Theorem patch_pipeline_never_reports_healthy (resolved : option error)
    (evs : list SourceEvent) w0 :
  Healthy w0 = false ->
  Healthy (handleAll evs (world_of (Launch (BuildPipelinePatch resolved w0))))
  = false.
Proof.
  unfold Healthy. intros Hh.
  assert (Hbuilt : processingJob (BuildPipelinePatch resolved w0)
                   = ThePatchJob
                   /\ healthy (BuildPipelinePatch resolved w0) = false).
  { unfold BuildPipelinePatch, BuildPipelineJob. destruct resolved as [e | ].
    - split.
      + match goal with
        | |- processingJob (Shutdown ?err ?w1) = _ =>
            destruct (sameConfig_shutdownFrom TheLoader err w1)
              as (_ & _ & Hpj & _); exact Hpj
        end.
      + apply unhealthy_shutdownFrom. exact Hh.
    - split; [ reflexivity | exact Hh ]. }
  destruct Hbuilt as (Hjob & Hh').
  apply unhealthy_patch_handleAll; unfold Launch;
    destruct (source (BuildPipelinePatch resolved w0)); cbn [world_of];
    assumption.
Qed.
End Properties.

(** * The model at work *)

(** Closes a goal about concrete worlds by evaluation. *)
Ltac by_evaluation :=
  vm_compute;
  repeat split;
  first [ reflexivity | discriminate | intro; discriminate ].

(** C1.  A loader told to stop before block 5 receives blocks 4, 5 and 6
    as New, then 4 and 5 as Irreversible.  The cutoff fires on the last
    delivery, when blocks 5 and 6 have already been handed to [PutBlock];
    the single New delivery of block 5 is enough for block 5 to be put. *)
Theorem stop_block_is_put_before_the_cutoff :
  let w := launchedLoader 100 5 tt TheFullJob in
  let run :=
    [Deliver (blockAt 4 0) newStep;
     Deliver (blockAt 5 0) newStep;
     Deliver (blockAt 6 0) newStep;
     Deliver (blockAt 4 0) (irreversibleStep 1 0 [blockAt 4 0]);
     Deliver (blockAt 5 0) (irreversibleStep 1 0 [blockAt 5 0])] in
  endBlock w = 5
  /\ putNumbers (trace (handleAll (bs := protocol10) run w)) = [4; 5; 6]
  /\ IsTerminating (handleAll (bs := protocol10) run w) = true
  /\ putNumbers
       (trace (world_of
                 (FullJob (bs := protocol10) 5 (blockAt 5 0) newStep w)))
     = [5].
Proof. by_evaluation. Qed.

(** The spec's scenario for C2: stop-block 2000, one group of three
    (1998, 1999, 2000); the delivery of index 1 is a duplicate. *)
Lemma FullJob_irreversible_group_witness :
  let group := [blockAt 1998 0; blockAt 1999 0; blockAt 2000 0] in
  let w := launchedLoader 100 2000 tt TheFullJob in
  FullJob (bs := protocol10) 1999 (blockAt 1999 0)
    (irreversibleStep 3 1 group) w
  = Returned None w.
Proof.
  intros group w.
  refine (proj1 (FullJob_irreversible_group (bs := protocol10)
                   1999 (blockAt 1999 0) (irreversibleStep 3 1 group) w
                   _ _) _).
  - reflexivity.
  - vm_compute. reflexivity.
  - vm_compute. discriminate.
Defined.

Lemma FlushIfNeeded_flushes_iff_witness :
  let w := launchedLoader 100 0 tt TheFullJob in
  flushedAt
    (eventsSince w (flushEach (combine oneTo250 (repeat 0 250)) w))
  = [100; 200].
Proof.
  intros w.
  refine (proj2 (proj2 (FlushIfNeeded_flushes_iff 1 0 w (repeat 0 250) _))
            _ _ _).
  - vm_compute. discriminate.
  - reflexivity.
  - apply repeat_length.
  - intros k t Hin. apply repeat_spec in Hin. subst t.
    vm_compute. discriminate.
Defined.

(** Two competing blocks of number 1 are delivered as New, as happens when
    the chain forks at its first block: the sentinel (number 0) is put and
    finalized with each. *)
Lemma sentinel_written_with_each_first_block :
  let w := launchedLoader 100 0 tt TheFullJob in
  let w' :=
    handleAll (bs := protocol10)
      [Deliver (blockAt 1 0) newStep; Deliver (forkAt 1 0) newStep] w in
  putNumbers (trace w') = [0; 1; 0; 1]
  /\ countPuts (fun b => Number b =? 0) (trace w') = 2%nat
  /\ List.length (filter isFinalize (trace w')) = 2%nat.
Proof. by_evaluation. Qed.

Lemma genesis_sentinel_with_each_first_block_witness :
  let w := launchedLoader 100 0 tt TheFullJob in
  let block := blockAt 1 0 in
  let g := genesisBlockOf (bs := protocol10) block in
  exists evs,
    trace (world_of (FullJob (bs := protocol10) 1 block newStep w))
    = trace w
      ++ [EvPutBlock g; EvUpdateNowIrreversibleBlock g; EvPutBlock block]
      ++ evs
    /\ filter isWrite evs = [].
Proof.
  intros w block g.
  exact (proj1 (genesis_sentinel_with_each_first_block (bs := protocol10)
                  1 block newStep w) eq_refl eq_refl).
Defined.

(** A healthy loader reaches its stop-block: the flush succeeds, the job
    returns nil, the loader shuts down with a nil error, and the health
    flag is false afterwards, the source having been terminated by the
    loader and not by itself. *)
Lemma clean_stop_turns_health_off :
  let w := launchedLoader 100 5 tt TheFullJob in
  let w1 :=
    handle (bs := protocol10) (Deliver (blockAt 5 0) newStep) w in
  exists w2,
    Healthy w = false /\ Healthy w1 = true
    /\ ProcessBlock (bs := protocol10) (blockAt 5 0)
         (irreversibleStep 1 0 [blockAt 5 0]) w1
       = Returned None w2
    /\ shutterErr (shutter w2) = None
    /\ filter (fun e => match e with EvSourceShutdown _ => true
                                   | _ => false end) (trace w2)
       = [EvSourceShutdown None]
    /\ Healthy w2 = false.
Proof. eexists. by_evaluation. Qed.

Lemma health_flag_lifecycle_witness :
  let w := launchedLoader 100 5 tt TheFullJob in
  exists w',
    FullJob (bs := protocol10) 5 (blockAt 5 0)
      (irreversibleStep 1 0 [blockAt 5 0]) w
    = Returned None w'
    /\ Healthy w' = false /\ srcTerminated w' = true
    /\ shutterErr (shutter w') = None.
Proof.
  intros w.
  refine (proj2 (proj2 (proj2 (health_flag_lifecycle (bs := protocol10) w)))
            5 (blockAt 5 0) (irreversibleStep 1 0 [blockAt 5 0])
            shutter_New _ _ _ _ _ _ _ _ _ _);
    by_evaluation.
Defined.

Lemma FullJob_stop_block_cutoff_witness :
  let w := launchedLoader 100 5 tt TheFullJob in
  FullJob (bs := protocol10) 5 (blockAt 5 0)
    (irreversibleStep 1 0 [blockAt 5 0]) w
  = Returned None (Shutdown None (afterFlush 5 w)).
Proof.
  intros w.
  refine (proj1 (proj2 (proj2
            (FullJob_stop_block_cutoff (bs := protocol10) 5 (blockAt 5 0)
               (irreversibleStep 1 0 [blockAt 5 0]) w _ _ _ _ _))) _);
    by_evaluation.
Defined.

(** [PatchJob] answers a step that is neither New nor Irreversible with
    nil, not with an error. *)
Lemma PatchJob_accepts_other_steps :
  let w := launchedLoader 100 0 tt ThePatchJob in
  let undo := mkForkableObject (StepOther 2) 1 0 [] in
  PatchJob 7 (blockAt 7 0) undo w = Returned None w
  /\ ProcessBlock (bs := protocol10) (blockAt 7 0) undo w
     = Returned None w.
Proof. by_evaluation. Qed.

Lemma other_step_FullJob_fails_PatchJob_ignores_witness :
  let w := launchedLoader 100 0 tt TheFullJob in
  let undo := mkForkableObject (StepOther 2) 1 0 [] in
  FullJob (bs := protocol10) 7 (blockAt 7 0) undo w
  = Returned
      (Some (Errorf_q "unsupported forkable step " (stepName (StepOther 2))))
      w
  /\ PatchJob 7 (blockAt 7 0) undo w = Returned None w.
Proof.
  intros w undo.
  refine (other_step_FullJob_fails_PatchJob_ignores (bs := protocol10)
            7 (blockAt 7 0) undo w _ _);
    discriminate.
Defined.

(** With batch size zero, a New delivery under [FullJob] whose [PutBlock]
    is refused returns the error and never divides. *)
Lemma refused_write_returns_before_dividing :
  let w := launchedLoader 0 0 [Some disconnect] TheFullJob in
  batchSize w = 0
  /\ exists w',
       FullJob (bs := protocol10) 7 (blockAt 7 0) newStep w
       = Returned (Some (errorString "store block: connection lost")) w'.
Proof. split; [ reflexivity | eexists; vm_compute; reflexivity ]. Qed.

Lemma FlushIfNeeded_total_iff_batchSize_nonzero_witness :
  let w := launchedLoader 0 0 tt TheFullJob in
  (forall n t, FlushIfNeeded n t w = Panicked DivideByZero w)
  /\ (exists w', PatchJob 7 (blockAt 7 0) newStep w
                 = Panicked DivideByZero w')
  /\ (exists w', FullJob (bs := protocol10) 7 (blockAt 7 0) newStep w
                 = Panicked DivideByZero w').
Proof.
  intros w.
  exact (proj2 (FlushIfNeeded_total_iff_batchSize_nonzero (bs := protocol10)
                  7 (blockAt 7 0) newStep w eq_refl) eq_refl).
Defined.

Lemma cutoff_flush_failure_PatchJob_vs_FullJob_witness :
  let w := launchedLoader 100 5 [Some disconnect] ThePatchJob in
  let err := Some (Errorf_w "flush failed: " disconnect) in
  PatchJob 5 (blockAt 5 0)
    (irreversibleStep 1 0 [blockAt 5 0]) w
  = Returned err (afterFlush 5 w)
  /\ FullJob (bs := protocol10) 5 (blockAt 5 0)
       (irreversibleStep 1 0 [blockAt 5 0]) w
     = Returned err (Shutdown err (afterFlush 5 w)).
Proof.
  intros w err.
  refine (let H :=
            cutoff_flush_failure_PatchJob_vs_FullJob (bs := protocol10)
              5 (blockAt 5 0) (irreversibleStep 1 0 [blockAt 5 0]) w
              disconnect _ _ _ _ _ _ in
          conj (proj1 (proj1 H)) (proj1 (proj2 H)));
    by_evaluation.
Defined.

(** ** The further properties at work *)

Lemma terminating_loader_is_inert_witness :
  let w := Shutdown None (launchedLoader 100 0 tt TheFullJob) in
  let evs :=
    [Deliver (blockAt 7 0) newStep; SourceEnds (Some disconnect);
     Deliver (blockAt 8 0) newStep] in
  IsTerminating (handleAll (bs := protocol10) evs w) = true
  /\ db (handleAll (bs := protocol10) evs w) = db w
  /\ filter isCommitCall (trace (handleAll (bs := protocol10) evs w))
     = filter isCommitCall (trace w).
Proof.
  intros w evs.
  refine (terminating_loader_is_inert (bs := protocol10) evs w _).
  by_evaluation.
Defined.

Lemma only_the_cutoff_shuts_the_loader_down_witness :
  let w := launchedLoader 100 5 tt TheFullJob in
  let obj := irreversibleStep 1 0 [blockAt 5 0] in
  Step obj = StepIrreversible
  /\ endBlock w <> 0 /\ endBlock w <= 5
  /\ StepCount obj = int_add (StepIndex obj) 1.
Proof.
  intros w obj.
  refine (only_the_cutoff_shuts_the_loader_down (bs := protocol10)
            TheFullJob 5 (blockAt 5 0) obj w _ _);
    by_evaluation.
Defined.

Lemma FullJob_New_sets_the_head_gauges_witness :
  let w := launchedLoader 100 0 [Some disconnect] TheFullJob in
  let w' :=
    world_of (FullJob (bs := protocol10) 7 (blockAt 7 42) newStep w) in
  HeadBlockNumber w' = 7 /\ HeadBlockTimeDrift w' = 42.
Proof.
  intros w w'.
  refine (FullJob_New_sets_the_head_gauges (bs := protocol10)
            7 (blockAt 7 42) newStep w _).
  reflexivity.
Defined.

Lemma FlushIfNeeded_outcome_witness :
  let w := launchedLoader 100 0 [Some disconnect] TheFullJob in
  exists r w',
    FlushIfNeeded 200 0 w = Returned r w'
    /\ db w' = []
    /\ r = Some (Errorf_w "flush failed: " disconnect)
    /\ HeadBlockNumber w' = HeadBlockNumber w.
Proof.
  intros w.
  assert (Hbatch : batchSize w <> 0) by (vm_compute; discriminate).
  destruct (FlushIfNeeded_outcome 200 0 w Hbatch)
    as (r & w' & Hrun & Hdue).
  change (flushExpected 200 0 w) with true in Hdue.
  destruct Hdue as (Hdb & Hr & Hhead).
  exists r, w'. repeat split; assumption.
Defined.

Lemma refused_block_is_reported_unwrapped_witness :
  let w := launchedLoader 100 0 [Some disconnect] TheFullJob in
  exists err w',
    FullJob (bs := protocol10) 7 (blockAt 7 0) newStep w
    = Returned (Some err) w'
    /\ Error err = ("store block: " ++ Error disconnect)%string
    /\ Unwrap err = None
    /\ trace w' = trace w ++ [EvPutBlock (blockAt 7 0)]
    /\ db w' = snd (PutBlock (blockAt 7 0) (db w)).
Proof.
  intros w.
  refine (refused_block_is_reported_unwrapped (bs := protocol10)
            7 (blockAt 7 0) newStep w disconnect _ _ _);
    by_evaluation.
Defined.

Lemma group_is_finalized_once_witness :
  let group := [blockAt 1998 0; blockAt 1999 0; blockAt 2000 0] in
  let w := launchedLoader 100 2000 tt TheFullJob in
  filter isWrite
    (eventsSince w
       (handleAll (bs := protocol10) (groupDeliveries group) w))
  = map EvUpdateNowIrreversibleBlock group.
Proof.
  intros group w.
  refine (group_is_finalized_once (bs := protocol10)
            (blockAt 1998 0) [blockAt 1999 0; blockAt 2000 0] w _ _ _);
    by_evaluation.
Defined.

Lemma first_of_several_is_finalized_past_the_stop_block_witness :
  let group := [blockAt 2000 0; blockAt 2001 0] in
  let w := launchedLoader 100 2000 tt TheFullJob in
  stopBlockReached 2000 (irreversibleStep 2 0 group) w = false
  /\ exists evs,
       trace (world_of (FullJob (bs := protocol10) 2000 (blockAt 2000 0)
                          (irreversibleStep 2 0 group) w))
       = trace w ++ map EvUpdateNowIrreversibleBlock group ++ evs
       /\ filter isWrite evs = [].
Proof.
  intros group w.
  refine (first_of_several_is_finalized_past_the_stop_block
            (bs := protocol10) 2000 (blockAt 2000 0)
            (irreversibleStep 2 0 group) w _ _ _);
    by_evaluation.
Defined.

Lemma PatchJob_flushes_as_FullJob_witness :
  let w := launchedLoader 100 0 tt TheFullJob in
  flushedAt
    (eventsSince w
       (world_of (FullJob (bs := protocol10) 200 (blockAt 200 0) newStep w)))
  = flushedAt
      (eventsSince w (world_of (PatchJob 200 (blockAt 200 0) newStep w))).
Proof.
  intros w.
  refine (PatchJob_flushes_as_FullJob (bs := protocol10)
            200 (blockAt 200 0) newStep w _ _ _);
    by_evaluation.
Defined.

Lemma shutdown_links_loader_and_source_witness :
  let w := launchedLoader 100 0 tt TheFullJob in
  let err := Some disconnect in
  healthy (source_Shutdown err w) = false
  /\ shutter (Shutdown None (source_Shutdown err w))
     = mkShutter true true err.
Proof.
  intros w err.
  refine (let H :=
            shutdown_links_loader_and_source err None shutter_New w
              _ _ _ _ in
          conj (proj2 (proj2 (proj1 (proj2 H))))
            (proj1 (proj1 (proj2 (proj2 (proj2 (proj2 H)))))));
    by_evaluation.
Defined.

Lemma unresolved_start_leaves_no_source_witness :
  let w := NewBigtableLoader 100 tt (clockAt aDay) in
  let w1 := BuildPipelineJob (Some disconnect) ThePatchJob w in
  IsTerminating w1 = true
  /\ Launch w1 = Panicked NilDereference w1.
Proof.
  intros w w1.
  refine (let H :=
            unresolved_start_leaves_no_source (bs := protocol10)
              disconnect ThePatchJob (blockAt 7 0) newStep w _ _ in
          conj (proj1 (proj2 H))
            (proj1 (proj2 (proj2 (proj2 (proj2 (proj2 H)))))));
    by_evaluation.
Defined.

Lemma patch_pipeline_never_reports_healthy_witness :
  let w0 := NewBigtableLoader 100 tt (clockAt aDay) in
  let evs :=
    [Deliver (blockAt 7 0) newStep; Deliver (blockAt 8 0) newStep] in
  Healthy
    (handleAll (bs := protocol10) evs
       (world_of (Launch (BuildPipelinePatch None w0))))
  = false.
Proof.
  intros w0 evs.
  refine (patch_pipeline_never_reports_healthy (bs := protocol10)
            None evs w0 _).
  reflexivity.
Defined.
